(** * Lotka-Volterra with the Gillespie algorithm: [gillespie_lv] of app.py

    The simulation core of the repository is the single function
    [gillespie_lv(prey_init, pred_init, a, b, c, d, max_time)].  This file
    embeds it twice and proves properties of it.

    Common conventions.
    - Population counts are Python integers: [Z].
    - The global NumPy generator is replaced by an explicit random source:
      iteration [k] of the loop (counted from 0) receives the pair of
      variates [rng k], first the result of [np.random.exponential], then
      the result of [np.random.uniform].
    - The [while] loop need not end for an arbitrary random source, so the
      loop function takes fuel and reports when it is used up.

    The first embedding computes rates and times with exact rationals [Q].
    It is used only for properties that follow from the tests of the loop
    and hold alike in the arithmetic of the program.

    The second embedding, module [F64], is the program as it runs: rates,
    thresholds and times are IEEE 754 binary64 values with their rounding,
    [max_time] is a Python integer compared exactly with the float [t], a
    count too large for a float raises [OverflowError] when it meets a rate,
    [np.random.exponential] raises [ValueError] on a negative scale,
    [np.random.uniform] raises [OverflowError] on a range that is not finite,
    and the function returns [np.array] of its three lists, which turns a
    list of counts into doubles when the counts cross [2^63]. *)

From Stdlib Require Import ZArith QArith Qfield Lqa Lia List Bool Floats.
Import ListNotations.

Local Open Scope Q_scope.

(** ** Numbers *)

(** Python's [x < y] on floats. *)
Definition Qltb (x y : Q) : bool :=
  match x ?= y with
  | Lt => true
  | _ => false
  end.

(** Python's builtin [sum] over a list of numbers: a left fold from [0]. *)
Definition sum (l : list Q) : Q := fold_left Qplus l 0.

(** ** The random source *)

Record Draw : Type := mkDraw {
  exponential : Q;   (* value returned by np.random.exponential(1 / total_rate) *)
  uniform : Q        (* value returned by np.random.uniform(0, total_rate) *)
}.

Definition RandomSource : Type := nat -> Draw.

(** ** Events *)

Inductive Event : Type :=
| PreyBirth          (* prey += 1 *)
| Predation          (* prey -= 1 *)
| PredatorDeath      (* pred -= 1 *)
| PredatorReproduction. (* pred += 1 *)

(** The list [rates] built at the top of each iteration. *)
Definition rates (a b c d : Q) (prey pred : Z) : list Q :=
  [ a * inject_Z prey;
    b * inject_Z prey * inject_Z pred;
    c * inject_Z pred;
    d * inject_Z prey * inject_Z pred ].

(** [rates[i]]. *)
Definition rate_at (rs : list Q) (i : nat) : Q := nth i rs 0.

(** The [if / elif / elif / else] chain on the uniform variate [r]. *)
Definition choose_event (rs : list Q) (r : Q) : Event :=
  if Qltb r (rate_at rs 0) then PreyBirth
  else if Qltb r (rate_at rs 0 + rate_at rs 1) then Predation
  else if Qltb r (rate_at rs 0 + rate_at rs 1 + rate_at rs 2) then PredatorDeath
  else PredatorReproduction.

(** The assignment made in the selected branch, as the new [(prey, pred)]. *)
Definition apply_event (e : Event) (prey pred : Z) : Z * Z :=
  match e with
  | PreyBirth => (prey + 1, pred)%Z
  | Predation => (prey - 1, pred)%Z
  | PredatorDeath => (prey, pred - 1)%Z
  | PredatorReproduction => (prey, pred + 1)%Z
  end.


(** ** The local variables of [gillespie_lv] *)

Record Sim : Type := mkSim {
  t : Q;
  prey : Z;
  pred : Z;
  times : list Q;
  prey_pop : list Z;
  pred_pop : list Z
}.

(** What a run of the function produces. *)
Inductive Outcome : Type :=
| Returned (times : list Q) (prey_pop pred_pop : list Z)
| ValueError          (* np.random.exponential was given a negative scale *)
| OutOfFuel.          (* the model's fuel ran out before the loop ended *)

Section Loop.

Variables a b c d max_time : Q.
Variable rng : RandomSource.

(** The condition of the [while]. *)
Definition loop_guard (s : Sim) : bool :=
  Qltb (t s) max_time && (0 <? prey s)%Z && (0 <? pred s)%Z.

Definition total_rate (s : Sim) : Q := sum (rates a b c d (prey s) (pred s)).

(** The run leaves the loop at [s]: the guard is false, or [break] is taken. *)
Definition stopped (s : Sim) : bool :=
  negb (loop_guard s) || Qeq_bool (total_rate s) 0.

(** The rest of the loop body after the [break] test, given the two variates
    of this iteration. *)
Definition advance (dr : Draw) (s : Sim) : Sim :=
  let t' := t s + exponential dr in
  let e := choose_event (rates a b c d (prey s) (pred s)) (uniform dr) in
  let '(prey', pred') := apply_event e (prey s) (pred s) in
  {| t := t';
     prey := prey';
     pred := pred';
     times := times s ++ [t'];
     prey_pop := prey_pop s ++ [prey'];
     pred_pop := pred_pop s ++ [pred'] |}.

(** The [while] loop, entered for the [k]-th time (from 0) in state [s]. *)
Fixpoint loop (fuel : nat) (k : nat) (s : Sim) : Outcome :=
  if stopped s then Returned (times s) (prey_pop s) (pred_pop s)
  else if Qltb (1 / total_rate s) 0 then ValueError
  else
    match fuel with
    | O => OutOfFuel
    | S fuel' => loop fuel' (S k) (advance (rng k) s)
    end.

End Loop.

(** The state before the loop. *)
Definition initial (prey_init pred_init : Z) : Sim :=
  {| t := 0;
     prey := prey_init;
     pred := pred_init;
     times := [0];
     prey_pop := [prey_init];
     pred_pop := [pred_init] |}.

Definition gillespie_lv (prey_init pred_init : Z) (a b c d max_time : Q)
    (rng : RandomSource) (fuel : nat) : Outcome :=
  loop a b c d max_time rng fuel 0 (initial prey_init pred_init).

(** ** The returned trajectory, sample by sample *)

(** The function returns three parallel arrays; a sample is one position
    of them. *)
Record Sample : Type := mkSample {
  s_time : Q;
  s_prey : Z;
  s_pred : Z
}.

Fixpoint samples (ts : list Q) (xs ys : list Z) : list Sample :=
  match ts, xs, ys with
  | t0 :: ts', x :: xs', y :: ys' => mkSample t0 x y :: samples ts' xs' ys'
  | _, _, _ => []
  end.

(** The samples recorded so far, and the sample of the current variables. *)
Definition history (s : Sim) : list Sample :=
  samples (times s) (prey_pop s) (pred_pop s).

Definition current (s : Sim) : Sample := mkSample (t s) (prey s) (pred s).

(** The three arrays have one length, and their last entries are the
    current values of [t], [prey] and [pred]. *)
Definition well_shaped (s : Sim) : Prop :=
  length (times s) = length (prey_pop s) /\
  length (prey_pop s) = length (pred_pop s) /\
  exists h, history s = h ++ [current s].

(** [R] holds between every sample and the next one. *)
Definition adjacent {A : Type} (R : A -> A -> Prop) (l : list A) : Prop :=
  forall i x y, nth_error l i = Some x -> nth_error l (S i) = Some y -> R x y.

(** The states in which the loop test is evaluated: [reachable ... k s] when
    the test is evaluated for the [k]-th time (from 0) in state [s]. *)
Inductive reachable (a b c d max_time : Q) (rng : RandomSource) (s0 : Sim)
  : nat -> Sim -> Prop :=
| reach_start : reachable a b c d max_time rng s0 0 s0
| reach_advance k s :
    reachable a b c d max_time rng s0 k s ->
    stopped a b c d max_time s = false ->
    reachable a b c d max_time rng s0 (S k) (advance a b c d (rng k) s).

(** The stop conditions of the run loop, read at a sample. *)
Definition stop_condition (a b c d max_time : Q) (s : Sample) : Prop :=
  sum (rates a b c d (s_prey s) (s_pred s)) == 0 \/
  max_time <= s_time s \/
  s_prey s = 0%Z \/
  s_pred s = 0%Z.

(** One event happened between two samples: one count moved by one, the
    other did not move. *)
Definition unit_step (s1 s2 : Sample) : Prop :=
  ((s_prey s2 = s_prey s1 + 1 \/ s_prey s2 = s_prey s1 - 1)%Z /\
   s_pred s2 = s_pred s1) \/
  (s_prey s2 = s_prey s1 /\
   (s_pred s2 = s_pred s1 + 1 \/ s_pred s2 = s_pred s1 - 1)%Z).

(** A decrement between two samples starts from a positive count. *)
Definition no_underflow (s1 s2 : Sample) : Prop :=
  (s_prey s2 = s_prey s1 - 1 -> 0 < s_prey s1)%Z /\
  (s_pred s2 = s_pred s1 - 1 -> 0 < s_pred s1)%Z.

Definition nonneg_sample (s : Sample) : Prop :=
  (0 <= s_prey s)%Z /\ (0 <= s_pred s)%Z.

Definition earlier (s1 s2 : Sample) : Prop := s_time s1 < s_time s2.


(** A source that always waits [1] and draws the uniform variate [0]. *)
Definition rng_unit : RandomSource := fun _ => mkDraw 1 0.

(** ** One iteration, read on samples *)

(** The sample that an iteration records when it starts from the sample
    [s] and is given the variates [dr]. *)
Definition next_sample (a b c d : Q) (dr : Draw) (s : Sample) : Sample :=
  let e := choose_event (rates a b c d (s_prey s) (s_pred s)) (uniform dr) in
  mkSample (s_time s + exponential dr)
           (fst (apply_event e (s_prey s) (s_pred s)))
           (snd (apply_event e (s_prey s) (s_pred s))).

(** The loop goes on from a sample: the [while] test holds and the
    [break] is not taken. *)
Definition live (a b c d max_time : Q) (s : Sample) : Prop :=
  s_time s < max_time /\ (0 < s_prey s)%Z /\ (0 < s_pred s)%Z /\
  ~ sum (rates a b c d (s_prey s) (s_pred s)) == 0.

(** The exponential variates of the first [n] iterations. *)
Definition waits (rng : RandomSource) (n : nat) : list Q :=
  map (fun k => exponential (rng k)) (seq 0 n).

(** ** The caller: the body of [if st.button("Run Simulation")] *)





(** A source that agrees with [rng_unit] on the first three iterations. *)
Definition rng_unit_then : RandomSource :=
  fun k => if (k <? 3)%nat then mkDraw 1 0 else mkDraw 7 7.

(** A source that waits [1] and alternates the uniform variates [0] and
    [1000]. *)
Definition rng_mixed : RandomSource :=
  fun k => if Nat.even k then mkDraw 1 0 else mkDraw 1 1000.

(** * The binary64 model

    The definitions above compute with exact numbers; they are kept for the
    properties that only depend on the tests of the loop.  The module below
    embeds the same function with the arithmetic of the program: rates,
    thresholds and times are IEEE 754 binary64 values ([float]), a count that
    does not fit a float raises [OverflowError] when it is multiplied by a
    rate, and the function returns [np.array] of its three lists. *)

Module F64.

Local Open Scope float_scope.

(** [math.isfinite], the sign bit and [math.isnan]. *)
Definition is_finite (x : float) : bool :=
  match classify x with
  | PInf | NInf | NaN => false
  | _ => true
  end.

Definition signbit (x : float) : bool :=
  match classify x with
  | NInf | NNormal | NSubn | NZero => true
  | _ => false
  end.

(** The conversion of a Python integer to a float, made when an integer
    meets a float in [*]: rounded to nearest, ties to even; [None] stands
    for [OverflowError: int too large to convert to float]. *)
Definition float_of_int (n : Z) : option float :=
  let x := SF2Prim (binary_normalize prec emax n 0 false) in
  if is_finite x then Some x else None.

(** [x < n] for a float [x] and a Python integer [n]: Python compares the
    two exactly, without rounding [n]. *)
Definition float_lt_int (x : float) (n : Z) : bool :=
  match Prim2SF x with
  | S754_nan => false
  | S754_infinity s => s
  | S754_zero _ => (0 <? n)%Z
  | S754_finite s m e =>
      match e with
      | Zneg p => (cond_Zopp s (Zpos m) <? n * 2 ^ Zpos p)%Z
      | _ => (cond_Zopp s (Zpos m) * 2 ^ e <? n)%Z
      end
  end.

(** The builtin [sum]: a left fold that starts from the integer [0]. *)
Definition sum (l : list float) : float := fold_left PrimFloat.add l 0.

(** The list [rates]; [None] when [prey] or [pred] does not fit a float. *)
Definition rates (a b c d : float) (prey pred : Z) : option (list float) :=
  match float_of_int prey, float_of_int pred with
  | Some x, Some y => Some [a * x; b * x * y; c * y; d * x * y]
  | _, _ => None
  end.

Definition rate_at (rs : list float) (i : nat) : float := nth i rs 0.

(** The [if / elif / elif / else] chain. *)
Definition choose_event (rs : list float) (r : float) : Event :=
  if r <? rate_at rs 0 then PreyBirth
  else if r <? rate_at rs 0 + rate_at rs 1 then Predation
  else if r <? rate_at rs 0 + rate_at rs 1 + rate_at rs 2 then PredatorDeath
  else PredatorReproduction.

Record Draw : Type := mkDraw {
  exponential : float;  (* value returned by np.random.exponential *)
  uniform : float       (* value returned by np.random.uniform *)
}.

Definition RandomSource : Type := nat -> Draw.

Record Sim : Type := mkSim {
  t : float;
  prey : Z;
  pred : Z;
  times : list float;
  prey_pop : list Z;
  pred_pop : list Z
}.

(** The exceptions that can leave the function. *)
Inductive Exception : Type :=
| ValueError      (* np.random.exponential: scale < 0 *)
| OverflowError.  (* int too large to convert to float, or
                     np.random.uniform: range exceeds valid bounds *)

(** How the body of the function ends, before [np.array]. *)
Inductive LoopEnd : Type :=
| Finished (s : Sim)
| Raised (e : Exception)
| NoFuel.

Section Loop.

Variables a b c d : float.
Variable max_time : Z.
Variable rng : RandomSource.

Definition loop_guard (s : Sim) : bool :=
  float_lt_int (t s) max_time && (0 <? prey s)%Z && (0 <? pred s)%Z.

(** The event of an iteration and the state it leaves. *)
Definition advance (rs : list float) (dr : Draw) (s : Sim) : Sim :=
  let t' := t s + exponential dr in
  let '(prey', pred') := apply_event (choose_event rs (uniform dr)) (prey s) (pred s) in
  {| t := t';
     prey := prey';
     pred := pred';
     times := times s ++ [t'];
     prey_pop := prey_pop s ++ [prey'];
     pred_pop := pred_pop s ++ [pred'] |}.

(** What one evaluation of the loop test and of the lines up to the two
    draws decides. *)
Inductive Decision : Type :=
| Leave                       (* the test fails, or [break] *)
| Go (rs : list float)        (* both draws are made *)
| Fail (e : Exception).

Definition decide (s : Sim) : Decision :=
  if negb (loop_guard s) then Leave
  else
    match rates a b c d (prey s) (pred s) with
    | None => Fail OverflowError
    | Some rs =>
        let total_rate := sum rs in
        if total_rate =? 0 then Leave
        else
          let scale := 1 / total_rate in
          if signbit scale && negb (is_nan scale) then Fail ValueError
          else if negb (is_finite total_rate) then Fail OverflowError
          else Go rs
    end.

Fixpoint loop (fuel : nat) (k : nat) (s : Sim) : LoopEnd :=
  match decide s with
  | Leave => Finished s
  | Fail e => Raised e
  | Go rs =>
      match fuel with
      | O => NoFuel
      | S fuel' => loop fuel' (S k) (advance rs (rng k) s)
      end
  end.

End Loop.

Definition initial (prey_init pred_init : Z) : Sim :=
  {| t := 0;
     prey := prey_init;
     pred := pred_init;
     times := [0];
     prey_pop := [prey_init];
     pred_pop := [pred_init] |}.

(** The change of the counts that an event makes, spelled out. *)
Definition event_effect (e : Event) (prey pred prey' pred' : Z) : Prop :=
  match e with
  | PreyBirth => prey' = (prey + 1)%Z /\ pred' = pred
  | Predation => prey' = (prey - 1)%Z /\ pred' = pred
  | PredatorDeath => prey' = prey /\ pred' = (pred - 1)%Z
  | PredatorReproduction => prey' = prey /\ pred' = (pred + 1)%Z
  end.

(** ** [np.array] on a list of Python integers *)

Inductive int_dtype : Type := int64 | uint64 | object.

Inductive ndarray : Type :=
| IntArray (dt : int_dtype) (items : list Z)
| Float64Array (items : list float).

Definition fits_int64 (n : Z) : bool := (- 2 ^ 63 <=? n)%Z && (n <? 2 ^ 63)%Z.
Definition fits_uint64 (n : Z) : bool := (0 <=? n)%Z && (n <? 2 ^ 64)%Z.

(** The conversion of an integer of the int64 or uint64 range to a double. *)
Definition double_of_int (n : Z) : float :=
  SF2Prim (binary_normalize prec emax n 0 false).

(** Each integer is given the type int64 when it fits, else uint64 when it
    fits, else object; the array takes the common type, which is float64
    for int64 together with uint64. *)
Definition np_array (l : list Z) : ndarray :=
  if negb (forallb (fun n => fits_int64 n || fits_uint64 n) l) then
    IntArray object l
  else if forallb fits_int64 l then IntArray int64 l
  else if forallb (fun n => negb (fits_int64 n)) l then IntArray uint64 l
  else Float64Array (map double_of_int l).

(** The integers held by an array that was not promoted to float64. *)
Definition exact_items (arr : ndarray) : option (list Z) :=
  match arr with
  | IntArray _ l => Some l
  | Float64Array _ => None
  end.

(** ** The returned trajectory, sample by sample *)

Record Sample : Type := mkSample {
  s_time : float;
  s_prey : Z;
  s_pred : Z
}.

Fixpoint samples (ts : list float) (xs ys : list Z) : list Sample :=
  match ts, xs, ys with
  | t0 :: ts', x :: xs', y :: ys' => mkSample t0 x y :: samples ts' xs' ys'
  | _, _, _ => []
  end.

Definition history (s : Sim) : list Sample :=
  samples (times s) (prey_pop s) (pred_pop s).

Definition current (s : Sim) : Sample := mkSample (t s) (prey s) (pred s).

(** The states in which the loop test is evaluated for the [k]-th time. *)
Inductive reachable (a b c d : float) (max_time : Z) (rng : RandomSource)
    (s0 : Sim) : nat -> Sim -> Prop :=
| reach_start : reachable a b c d max_time rng s0 0 s0
| reach_advance k s rs :
    reachable a b c d max_time rng s0 k s ->
    decide a b c d max_time s = Go rs ->
    reachable a b c d max_time rng s0 (S k) (advance rs (rng k) s).

(** Two floats that every comparison treats alike: the same value, or two
    zeros of any sign. *)
Definition same (x y : float) : Prop :=
  Prim2SF x = Prim2SF y \/
  exists s s', Prim2SF x = S754_zero s /\ Prim2SF y = S754_zero s'.

(** The exact value of a finite float, as a rational. *)
Definition exact_value (x : float) : option Q :=
  match Prim2SF x with
  | S754_zero _ => Some 0%Q
  | S754_finite s m e =>
      Some (Qred (inject_Z (cond_Zopp s (Zpos m)) * Qpower 2 e))%Q
  | _ => None
  end.

(** One event happened between two samples. *)
Definition unit_step (s1 s2 : Sample) : Prop :=
  ((s_prey s2 = s_prey s1 + 1 \/ s_prey s2 = s_prey s1 - 1)%Z /\
   s_pred s2 = s_pred s1) \/
  (s_prey s2 = s_prey s1 /\
   (s_pred s2 = s_pred s1 + 1 \/ s_pred s2 = s_pred s1 - 1)%Z).

(** The stop conditions of the run loop, read at a sample: the total rate
    is zero there, or the time is not below [max_time], or a count is [0]. *)
Definition stop_condition (a b c d : float) (max_time : Z) (s : Sample) : Prop :=
  (exists rs, rates a b c d (s_prey s) (s_pred s) = Some rs /\
              (sum rs =? 0) = true) \/
  float_lt_int (s_time s) max_time = false \/
  s_prey s = 0%Z \/
  s_pred s = 0%Z.

(** The sample that an iteration records when it starts from the sample
    [s] with the rates [rs] and is given the variates [dr]. *)
Definition next_sample (rs : list float) (dr : Draw) (s : Sample) : Sample :=
  let e := choose_event rs (uniform dr) in
  mkSample (s_time s + exponential dr)
           (fst (apply_event e (s_prey s) (s_pred s)))
           (snd (apply_event e (s_prey s) (s_pred s))).

(** The number held at position [i] of an array, as an exact rational:
    the integer itself, or the value of the double. *)
Definition item_value (arr : ndarray) (i : nat) : option Q :=
  match arr with
  | IntArray _ l => option_map inject_Z (nth_error l i)
  | Float64Array l =>
      match nth_error l i with
      | Some x => exact_value x
      | None => None
      end
  end.

(** Sources used in the examples: every wait is [1] and every uniform
    variate is [0]; the same for three iterations and other values after;
    a wait of [2^-57] in the second iteration; waits of [1.5]. *)
Definition rng_one : RandomSource := fun _ => mkDraw 1 0.

Definition rng_one_then : RandomSource :=
  fun k => if (k <? 3)%nat then mkDraw 1 0 else mkDraw 7 7.


Definition rng_long : RandomSource := fun _ => mkDraw 1.5 0.

Inductive Outcome : Type :=
| Returned (times : list float) (prey_pop pred_pop : ndarray)
| Raises (e : Exception)
| OutOfFuel.

Definition gillespie_lv (prey_init pred_init : Z) (a b c d : float)
    (max_time : Z) (rng : RandomSource) (fuel : nat) : Outcome :=
  match loop a b c d max_time rng fuel 0 (initial prey_init pred_init) with
  | Finished s => Returned (times s) (np_array (prey_pop s)) (np_array (pred_pop s))
  | Raised e => Raises e
  | NoFuel => OutOfFuel
  end.

End F64.

(** A zero of either sign, as a specification float. *)
Definition sf_zero (x : spec_float) : Prop := exists s, x = S754_zero s.

(** * Properties *)

(** ** A concrete run *)

Example run_births :
  gillespie_lv 2 1 1 0 0 0 (5 # 2) rng_unit 10
  = Returned [0; 0 + 1; 0 + 1 + 1; 0 + 1 + 1 + 1] [2; 3; 4; 5]%Z [1; 1; 1; 1]%Z.
Proof. reflexivity. Qed.

(** ** Comparisons *)

Lemma Qltb_lt (x y : Q) : Qltb x y = true <-> x < y.
Proof.
  unfold Qltb. rewrite Qlt_alt. destruct (x ?= y); split; congruence.
Qed.

Lemma Qltb_ge (x y : Q) : Qltb x y = false <-> y <= x.
Proof.
  split; intros H.
  - apply Qnot_lt_le. intros Hlt. apply Qltb_lt in Hlt. congruence.
  - destruct (Qltb x y) eqn:E; [|reflexivity].
    apply Qltb_lt in E. exfalso. exact (Qlt_not_le _ _ E H).
Qed.

Lemma inject_Z_nonneg (n : Z) : (0 <= n)%Z -> 0 <= inject_Z n.
Proof. intros H. unfold Qle. cbn. lia. Qed.

(** ** Event selection *)

Lemma rates_nonneg (a b c d : Q) (prey pred : Z) :
  0 <= a -> 0 <= b -> 0 <= c -> 0 <= d -> (0 <= prey)%Z -> (0 <= pred)%Z ->
  let rs := rates a b c d prey pred in
  0 <= rate_at rs 0 /\ 0 <= rate_at rs 1 /\ 0 <= rate_at rs 2 /\ 0 <= rate_at rs 3.
Proof.
  intros Ha Hb Hc Hd Hx Hy. cbn.
  apply inject_Z_nonneg in Hx, Hy.
  repeat split; repeat apply Qmult_le_0_compat; assumption.
Qed.

Lemma choose_event_cases (rs : list Q) (u : Q) :
  let r0 := rate_at rs 0 in
  let r1 := rate_at rs 1 in
  let r2 := rate_at rs 2 in
  (choose_event rs u = PreyBirth /\ u < r0) \/
  (choose_event rs u = Predation /\ r0 <= u < r0 + r1) \/
  (choose_event rs u = PredatorDeath /\ r0 <= u /\ r0 + r1 <= u < r0 + r1 + r2) \/
  (choose_event rs u = PredatorReproduction /\
   r0 <= u /\ r0 + r1 <= u /\ r0 + r1 + r2 <= u).
Proof.
  intros r0 r1 r2. unfold choose_event. fold r0 r1 r2.
  destruct (Qltb u r0) eqn:E0.
  { left. apply Qltb_lt in E0. auto. }
  apply Qltb_ge in E0.
  destruct (Qltb u (r0 + r1)) eqn:E1.
  { right; left. apply Qltb_lt in E1. auto. }
  apply Qltb_ge in E1.
  destruct (Qltb u (r0 + r1 + r2)) eqn:E2.
  { right; right; left. apply Qltb_lt in E2. auto. }
  apply Qltb_ge in E2. right; right; right. auto.
Qed.

(** ** Lists that grow at the end *)

Lemma samples_app (ts ts' : list Q) (xs xs' ys ys' : list Z) :
  length ts = length xs -> length xs = length ys ->
  samples (ts ++ ts') (xs ++ xs') (ys ++ ys')
  = samples ts xs ys ++ samples ts' xs' ys'.
Proof.
  revert xs ys. induction ts as [|t0 ts IH]; intros [|x xs] [|y ys] Hx Hy;
    try discriminate; [reflexivity|].
  cbn in *. f_equal. apply IH; congruence.
Qed.

Lemma samples_length (ts : list Q) (xs ys : list Z) :
  length ts = length xs -> length xs = length ys ->
  length (samples ts xs ys) = length ts.
Proof.
  revert xs ys. induction ts as [|t0 ts IH]; intros [|x xs] [|y ys] Hx Hy;
    try discriminate; [reflexivity|].
  cbn in *. f_equal. apply IH; congruence.
Qed.

Lemma adjacent_snoc {A : Type} (R : A -> A -> Prop) (h : list A) (x y : A) :
  adjacent R (h ++ [x]) -> R x y -> adjacent R ((h ++ [x]) ++ [y]).
Proof.
  intros Hadj Hxy i u v Hu Hv.
  assert (Hlen : length (h ++ [x]) = S (length h))
    by (rewrite length_app; cbn; lia).
  destruct (Nat.lt_ge_cases (S i) (length (h ++ [x]))) as [Hlt|Hge].
  - rewrite nth_error_app1 in Hu, Hv by lia. exact (Hadj i u v Hu Hv).
  - destruct (Nat.eq_dec i (length h)) as [->|Hne].
    + rewrite nth_error_app1 in Hu by lia.
      rewrite nth_error_app2 in Hu by lia.
      rewrite nth_error_app2 in Hv by lia.
      rewrite Nat.sub_diag in Hu. rewrite Hlen in Hv.
      replace (S (length h) - S (length h))%nat with 0%nat in Hv by lia.
      cbn in Hu, Hv. congruence.
    + assert (Hnone : nth_error ((h ++ [x]) ++ [y]) (S i) = None).
      { apply nth_error_None. rewrite length_app. cbn. lia. }
      congruence.
Qed.

Lemma adjacent_single {A : Type} (R : A -> A -> Prop) (x : A) :
  adjacent R [x].
Proof. intros i u v _ Hv. destruct i; discriminate Hv. Qed.

(** ** The loop as a state machine *)

Section LoopFacts.

Variables a b c d max_time : Q.
Variable rng : RandomSource.
Variables prey_init pred_init : Z.

Let s0 := initial prey_init pred_init.
Let reach := reachable a b c d max_time rng s0.

Lemma history_advance (dr : Draw) (s : Sim) :
  well_shaped s ->
  history (advance a b c d dr s)
  = history s ++ [current (advance a b c d dr s)].
Proof.
  intros (Hx & Hy & _). unfold history, advance.
  destruct (apply_event _ _ _) as [x' y']. cbn.
  now rewrite samples_app.
Qed.

Lemma advance_well_shaped (dr : Draw) (s : Sim) :
  well_shaped s -> well_shaped (advance a b c d dr s).
Proof.
  intros Hs. pose proof (history_advance dr s Hs) as Hh.
  destruct Hs as (Hx & Hy & _).
  split; [|split].
  - unfold advance. destruct (apply_event _ _ _). cbn.
    rewrite !length_app. cbn. lia.
  - unfold advance. destruct (apply_event _ _ _). cbn.
    rewrite !length_app. cbn. lia.
  - eexists. exact Hh.
Qed.

Lemma reachable_well_shaped (k : nat) (s : Sim) : reach k s -> well_shaped s.
Proof.
  induction 1 as [|k s _ IH _].
  - repeat split. exists []. reflexivity.
  - now apply advance_well_shaped.
Qed.

(** A run that returns does so from a reachable state in which the loop
    is left. *)
Lemma loop_returned (fuel k : nat) (s : Sim) (ts : list Q) (xs ys : list Z) :
  reach k s ->
  loop a b c d max_time rng fuel k s = Returned ts xs ys ->
  exists k' s', reach k' s' /\ stopped a b c d max_time s' = true /\
                ts = times s' /\ xs = prey_pop s' /\ ys = pred_pop s'.
Proof.
  revert k s. induction fuel as [|fuel IH]; intros k s Hr Hrun; cbn in Hrun.
  - destruct (stopped a b c d max_time s) eqn:Est.
    + injection Hrun as <- <- <-. now exists k, s.
    + destruct (Qltb _ _); discriminate Hrun.
  - destruct (stopped a b c d max_time s) eqn:Est.
    + injection Hrun as <- <- <-. now exists k, s.
    + destruct (Qltb _ _); [discriminate Hrun|].
      apply IH in Hrun; [exact Hrun|]. now apply reach_advance.
Qed.

Lemma gillespie_lv_returned (fuel : nat) (ts : list Q) (xs ys : list Z) :
  gillespie_lv prey_init pred_init a b c d max_time rng fuel = Returned ts xs ys ->
  exists k s, reach k s /\ stopped a b c d max_time s = true /\
              samples ts xs ys = history s /\
              length ts = length xs /\ length xs = length ys.
Proof.
  intros Hrun. apply loop_returned in Hrun; [|apply reach_start].
  destruct Hrun as (k & s & Hr & Hst & -> & -> & ->).
  exists k, s. destruct (reachable_well_shaped k s Hr) as (Hx & Hy & _).
  auto.
Qed.

(** What leaving the loop means, and what staying in it means. *)
Lemma stopped_false (s : Sim) :
  stopped a b c d max_time s = false ->
  t s < max_time /\ (0 < prey s)%Z /\ (0 < pred s)%Z /\
  ~ total_rate a b c d s == 0.
Proof.
  unfold stopped, loop_guard. intros H.
  apply orb_false_iff in H. destruct H as [Hg Hz].
  apply negb_false_iff in Hg.
  apply andb_prop in Hg. destruct Hg as [Hg Hy].
  apply andb_prop in Hg. destruct Hg as [Ht Hx].
  apply Qltb_lt in Ht. apply Z.ltb_lt in Hx, Hy.
  repeat split; try assumption.
  intros Hq. apply Qeq_bool_iff in Hq. congruence.
Qed.

Lemma stopped_true (s : Sim) :
  stopped a b c d max_time s = true ->
  total_rate a b c d s == 0 \/ max_time <= t s \/
  (prey s <= 0)%Z \/ (pred s <= 0)%Z.
Proof.
  unfold stopped, loop_guard. intros H.
  apply orb_prop in H. destruct H as [Hg|Hz].
  - apply negb_true_iff in Hg.
    apply andb_false_iff in Hg. destruct Hg as [Hg|Hy].
    + apply andb_false_iff in Hg. destruct Hg as [Ht|Hx].
      * right; left. now apply Qltb_ge.
      * right; right; left. now apply Z.ltb_ge.
    + right; right; right. now apply Z.ltb_ge.
  - left. now apply Qeq_bool_iff.
Qed.

(** The sample recorded by one iteration. *)
Lemma current_advance (dr : Draw) (s : Sim) :
  let e := choose_event (rates a b c d (prey s) (pred s)) (uniform dr) in
  current (advance a b c d dr s)
  = mkSample (t s + exponential dr)
             (fst (apply_event e (prey s) (pred s)))
             (snd (apply_event e (prey s) (pred s))).
Proof.
  intros e. unfold current, advance. fold e.
  now destruct (apply_event e (prey s) (pred s)).
Qed.

(** A relation that every iteration establishes between the sample it
    starts from and the sample it records holds all along the history.  Only
    the iterations that were run are looked at. *)
Lemma reachable_adjacent (R : Sample -> Sample -> Prop) (k : nat) (s : Sim) :
  reach k s ->
  (forall j s', (j < k)%nat -> reach j s' ->
                stopped a b c d max_time s' = false ->
                R (current s') (current (advance a b c d (rng j) s'))) ->
  adjacent R (history s).
Proof.
  induction 1 as [|k s Hr IH Hst]; intros Hstep.
  - apply adjacent_single.
  - pose proof (reachable_well_shaped k s Hr) as Hws.
    rewrite history_advance by exact Hws.
    destruct Hws as (_ & _ & h & Hh). rewrite Hh.
    apply adjacent_snoc.
    + rewrite <- Hh. apply IH. intros j s' Hj. apply Hstep. lia.
    + apply Hstep; [lia|assumption|assumption].
Qed.

(** A property of the initial sample that every iteration carries from the
    sample it starts from to the one it records holds of every sample. *)
Lemma reachable_Forall (P : Sample -> Prop) (k : nat) (s : Sim) :
  P (current s0) ->
  (forall j s', stopped a b c d max_time s' = false -> P (current s') ->
                P (current (advance a b c d (rng j) s'))) ->
  reach k s ->
  Forall P (history s).
Proof.
  intros Hinit Hstep. induction 1 as [|k s Hr IH Hst].
  - repeat constructor. exact Hinit.
  - pose proof (reachable_well_shaped k s Hr) as Hws.
    rewrite history_advance by exact Hws.
    apply Forall_app. split; [exact IH|].
    repeat constructor. apply Hstep; [exact Hst|].
    destruct Hws as (_ & _ & h & Hh). rewrite Hh in IH.
    apply Forall_app in IH. destruct IH as [_ IH].
    now inversion IH.
Qed.

Lemma reachable_length (k : nat) (s : Sim) :
  reach k s -> length (history s) = S k.
Proof.
  induction 1 as [|k s Hr IH Hst]; [reflexivity|].
  rewrite history_advance by (eapply reachable_well_shaped; eassumption).
  rewrite length_app. cbn. lia.
Qed.

Lemma reachable_head (k : nat) (s : Sim) :
  reach k s -> exists h, history s = current s0 :: h.
Proof.
  induction 1 as [|k s Hr [h IH] Hst].
  - now exists [].
  - rewrite history_advance by (eapply reachable_well_shaped; eassumption).
    rewrite IH. eexists. reflexivity.
Qed.

End LoopFacts.

(** ** Shape of the returned trajectory *)

(** C4: started from non-negative counts with non-negative rates, every
    sample of the returned trajectory has non-negative counts; and a count
    that goes down by one between two samples was positive before: no
    decrement is applied to a count that is [0]. *)
Theorem gillespie_lv_nonnegative
    (prey_init pred_init : Z) (a b c d max_time : Q)
    (rng : RandomSource) (fuel : nat) (ts : list Q) (xs ys : list Z) :
  (0 <= prey_init)%Z -> (0 <= pred_init)%Z ->
  0 <= a -> 0 <= b -> 0 <= c -> 0 <= d ->
  gillespie_lv prey_init pred_init a b c d max_time rng fuel = Returned ts xs ys ->
  Forall nonneg_sample (samples ts xs ys) /\
  adjacent no_underflow (samples ts xs ys).
Proof.
  intros Hx Hy _ _ _ _ Hrun. apply gillespie_lv_returned in Hrun.
  destruct Hrun as (k & s & Hr & _ & -> & _). split.
  - eapply reachable_Forall; [| |exact Hr].
    + split; assumption.
    + intros j s' Hst _. apply stopped_false in Hst.
      destruct Hst as (_ & Hx' & Hy' & _).
      rewrite current_advance.
      destruct (choose_event _ _); split; cbn; lia.
  - eapply reachable_adjacent; [exact Hr|].
    intros j s' _ _ Hst. apply stopped_false in Hst.
    destruct Hst as (_ & Hx' & Hy' & _).
    rewrite current_advance. split; cbn; intros _; assumption.
Qed.

(** ** Time *)


(** ** Runs that record no event *)

Lemma loop_stopped (a b c d max_time : Q) (rng : RandomSource)
    (fuel k : nat) (s : Sim) :
  stopped a b c d max_time s = true ->
  loop a b c d max_time rng fuel k s
  = Returned (times s) (prey_pop s) (pred_pop s).
Proof. intros H. destruct fuel; cbn; now rewrite H. Qed.

(** C8: when one of the initial counts is [0], the run returns at the first
    evaluation of the loop test, whatever the other inputs, the random source
    and the fuel are: it raises nothing, and the trajectory is the single
    initial sample. *)
Theorem gillespie_lv_degenerate
    (prey_init pred_init : Z) (a b c d max_time : Q)
    (rng : RandomSource) (fuel : nat) :
  prey_init = 0%Z \/ pred_init = 0%Z ->
  loop_guard max_time (initial prey_init pred_init) = false /\
  gillespie_lv prey_init pred_init a b c d max_time rng fuel
  = Returned [0] [prey_init] [pred_init] /\
  samples [0] [prey_init] [pred_init] = [mkSample 0 prey_init pred_init].
Proof.
  intros H.
  assert (Hg : loop_guard max_time (initial prey_init pred_init) = false).
  { unfold loop_guard. cbn. destruct H as [-> | ->]; cbn.
    - now rewrite andb_false_r.
    - now rewrite andb_false_r. }
  split; [exact Hg|]. split; [|reflexivity].
  unfold gillespie_lv. rewrite loop_stopped; [reflexivity|].
  unfold stopped. now rewrite Hg.
Qed.

(** ** Scenario B: no prey at the start *)

(** C7, as stated, fails: from [prey_init = 0], [pred_init = 5] the returned
    trajectory does not end with the predators extinct or the time at [50]. *)
Lemma scenario_B_no_decay :
  ~ (forall rng fuel ts xs ys,
       gillespie_lv 0 5 1 (2 # 100) 1 (1 # 100) 50 rng fuel = Returned ts xs ys ->
       exists front final, samples ts xs ys = front ++ [final] /\
                           (s_pred final = 0%Z \/ 50 <= s_time final)).
Proof.
  intros Hclaim.
  destruct (Hclaim rng_unit 0%nat [0] [0]%Z [5]%Z eq_refl)
    as (front & final & Hs & Hend).
  destruct front as [|x front]; cbn in Hs.
  - injection Hs as <-. cbn in Hend. destruct Hend as [H|H].
    + discriminate H.
    + revert H. apply Qlt_not_le. reflexivity.
  - destruct front; discriminate Hs.
Qed.

(** C7, amended: from [prey_init = 0], [pred_init = 5] with the rates of
    scenario B the loop test fails at once on [prey > 0]; the trajectory is
    the single sample [(0, 0, 5)] and no predator death is recorded, although
    the total rate of the initial state is [c * 5 = 5]. *)
Theorem scenario_B_single_sample (rng : RandomSource) (fuel : nat) :
  total_rate 1 (2 # 100) 1 (1 # 100) (initial 0 5) == 5 /\
  loop_guard 50 (initial 0 5) = false /\
  gillespie_lv 0 5 1 (2 # 100) 1 (1 # 100) 50 rng fuel = Returned [0] [0]%Z [5]%Z /\
  samples [0] [0]%Z [5]%Z = [mkSample 0 0 5].
Proof.
  split; [reflexivity|]. split; [reflexivity|]. split; [|reflexivity].
  destruct fuel; reflexivity.
Qed.

(** ** The theorems at concrete inputs *)

Ltac by_computation :=
  cbv; first [reflexivity | discriminate | split; first [reflexivity | discriminate]].

Lemma gillespie_lv_nonnegative_births :
  Forall nonneg_sample
    (samples [0; 0 + 1; 0 + 1 + 1; 0 + 1 + 1 + 1] [2; 3; 4; 5]%Z [1; 1; 1; 1]%Z).
Proof.
  apply (gillespie_lv_nonnegative 2 1 1 0 0 0 (5 # 2) rng_unit 10);
    by_computation.
Defined.

Lemma gillespie_lv_degenerate_no_prey :
  gillespie_lv 0 5 1 (2 # 100) 1 (1 # 100) 50 rng_unit 0
  = Returned [0] [0]%Z [5]%Z.
Proof.
  apply (gillespie_lv_degenerate 0 5 1 (2 # 100) 1 (1 # 100) 50 rng_unit 0).
  left. reflexivity.
Defined.

(** * Further properties of [gillespie_lv] and of its caller *)

(** ** Every sample comes from a state of the loop *)

Section TrajectoryFacts.

Variables a b c d max_time : Q.
Variable rng : RandomSource.
Variables prey_init pred_init : Z.

Let s0 := initial prey_init pred_init.
Let reach := reachable a b c d max_time rng s0.

Lemma history_last (k : nat) (s : Sim) :
  reach k s -> nth_error (history s) k = Some (current s).
Proof.
  intros Hr.
  pose proof (reachable_length _ _ _ _ _ _ _ _ _ _ Hr) as Hlen.
  destruct (reachable_well_shaped _ _ _ _ _ _ _ _ _ _ Hr) as (_ & _ & h & Hh).
  rewrite Hh in Hlen |- *. rewrite length_app in Hlen. cbn in Hlen.
  rewrite nth_error_app2 by lia.
  replace (k - length h)%nat with 0%nat by lia. reflexivity.
Qed.

(** The sample at position [i] is the sample of the state in which the loop
    test was evaluated for the [i]-th time. *)
Lemma reachable_at (k : nat) (s : Sim) :
  reach k s ->
  forall i x, nth_error (history s) i = Some x ->
              exists s', reach i s' /\ x = current s'.
Proof.
  induction 1 as [|k s Hr IH Hst]; intros i x Hi.
  - destruct i as [|i]; cbn in Hi.
    + injection Hi as <-. exists s0. split; [apply reach_start|reflexivity].
    + destruct i; discriminate Hi.
  - pose proof (reachable_length _ _ _ _ _ _ _ _ _ _ Hr) as Hlen.
    rewrite history_advance in Hi
      by (eapply reachable_well_shaped; eassumption).
    destruct (Nat.lt_ge_cases i (S k)) as [Hlt|Hge].
    + rewrite nth_error_app1 in Hi by lia. exact (IH i x Hi).
    + rewrite nth_error_app2 in Hi by lia. rewrite Hlen in Hi.
      destruct (i - S k)%nat as [|n] eqn:E; cbn in Hi.
      * injection Hi as <-. assert (i = S k) by lia. subst i.
        eexists. split; [|reflexivity]. now apply reach_advance.
      * destruct n; discriminate Hi.
Qed.

(** Below the last position, that state went through the loop body, and the
    next sample is the one its iteration recorded. *)
Lemma reachable_next (k : nat) (s : Sim) :
  reach k s ->
  forall i, (i < k)%nat ->
    exists s', reach i s' /\ stopped a b c d max_time s' = false /\
               nth_error (history s) i = Some (current s') /\
               nth_error (history s) (S i)
               = Some (current (advance a b c d (rng i) s')).
Proof.
  induction 1 as [|k s Hr IH Hst]; intros i Hi; [lia|].
  pose proof (reachable_length _ _ _ _ _ _ _ _ _ _ Hr) as Hlen.
  pose proof (reachable_well_shaped _ _ _ _ _ _ _ _ _ _ Hr) as Hws.
  rewrite history_advance by exact Hws.
  destruct (Nat.eq_dec i k) as [->|Hne].
  - exists s. split; [exact Hr|]. split; [exact Hst|]. split.
    + rewrite nth_error_app1 by lia. now apply history_last.
    + rewrite nth_error_app2 by lia. rewrite Hlen, Nat.sub_diag. reflexivity.
  - destruct (IH i) as (s' & Hr' & Hst' & Hi0 & Hi1); [lia|].
    exists s'. split; [exact Hr'|]. split; [exact Hst'|].
    rewrite !nth_error_app1 by lia. now split.
Qed.

Lemma current_advance_next (dr : Draw) (s : Sim) :
  current (advance a b c d dr s) = next_sample a b c d dr (current s).
Proof. apply current_advance. Qed.

Lemma stopped_false_live (s : Sim) :
  stopped a b c d max_time s = false -> live a b c d max_time (current s).
Proof. intros H. apply stopped_false in H. exact H. Qed.

End TrajectoryFacts.

Lemma reachable_live_front (a b c d max_time : Q) (rng : RandomSource)
    (prey_init pred_init : Z) (k : nat) (s : Sim) :
  reachable a b c d max_time rng (initial prey_init pred_init) k s ->
  exists h, history s = h ++ [current s] /\
            Forall (live a b c d max_time) h.
Proof.
  induction 1 as [|k s Hr (h & Hh & Hall) Hst].
  - exists []. split; [reflexivity|constructor].
  - rewrite history_advance by (eapply reachable_well_shaped; eassumption).
    exists (history s). split; [reflexivity|].
    rewrite Hh. apply Forall_app. split; [exact Hall|].
    constructor; [|constructor]. now apply stopped_false_live.
Qed.

(** ** Where the trajectory is cut *)

(** The returned trajectory is cut at the first sample from which the loop
    cannot go on: every sample but the last has a time below [max_time],
    positive counts and a non-zero total rate, and the last sample fails one
    of these. *)
Theorem gillespie_lv_cut_at_first_stop
    (prey_init pred_init : Z) (a b c d max_time : Q)
    (rng : RandomSource) (fuel : nat) (ts : list Q) (xs ys : list Z) :
  gillespie_lv prey_init pred_init a b c d max_time rng fuel = Returned ts xs ys ->
  exists front final,
    samples ts xs ys = front ++ [final] /\
    Forall (live a b c d max_time) front /\
    ~ live a b c d max_time final.
Proof.
  intros Hrun. apply gillespie_lv_returned in Hrun.
  destruct Hrun as (k & s & Hr & Hst & -> & _).
  destruct (reachable_live_front _ _ _ _ _ _ _ _ _ _ Hr) as (h & Hh & Hall).
  exists h, (current s). split; [exact Hh|]. split; [exact Hall|].
  intros (Ht & Hx & Hy & Hz). apply stopped_true in Hst.
  unfold total_rate in Hst. cbn in Ht, Hx, Hy, Hz.
  destruct Hst as [H|[H|[H|H]]]; [contradiction| |lia|lia].
  exact (Qlt_not_le _ _ Ht H).
Qed.

(** ** The trajectory as a replay of the random source *)

Lemma sum_waits_succ (rng : RandomSource) (n : nat) :
  sum (waits rng (S n)) = sum (waits rng n) + exponential (rng n).
Proof.
  unfold sum, waits. rewrite seq_S, map_app, fold_left_app. reflexivity.
Qed.

Lemma reachable_time (a b c d max_time : Q) (rng : RandomSource)
    (prey_init pred_init : Z) (k : nat) (s : Sim) :
  reachable a b c d max_time rng (initial prey_init pred_init) k s ->
  t s = sum (waits rng k).
Proof.
  induction 1 as [|k s Hr IH Hst]; [reflexivity|].
  rewrite sum_waits_succ, <- IH. unfold advance.
  now destruct (apply_event _ _ _).
Qed.

(** The time recorded at position [i] is the total, added up from the left
    starting at [0], of the first [i] exponential variates. *)
Theorem gillespie_lv_times_accumulate
    (prey_init pred_init : Z) (a b c d max_time : Q)
    (rng : RandomSource) (fuel : nat) (ts : list Q) (xs ys : list Z)
    (i : nat) (x : Sample) :
  gillespie_lv prey_init pred_init a b c d max_time rng fuel = Returned ts xs ys ->
  nth_error (samples ts xs ys) i = Some x ->
  s_time x = sum (waits rng i).
Proof.
  intros Hrun Hx. apply gillespie_lv_returned in Hrun.
  destruct Hrun as (k & s & Hr & _ & Hs & _). rewrite Hs in Hx.
  destruct (reachable_at _ _ _ _ _ _ _ _ _ _ Hr i x Hx) as (s' & Hr' & ->).
  exact (reachable_time _ _ _ _ _ _ _ _ _ _ Hr').
Qed.

(** ** Exceptions *)

Lemma inject_Z_pos (n : Z) : (0 < n)%Z -> 0 < inject_Z n.
Proof. intros H. unfold Qlt. cbn. lia. Qed.




(** ** Termination *)

Lemma loop_length (a b c d max_time : Q) (rng : RandomSource)
    (fuel k : nat) (s : Sim) (ts : list Q) (xs ys : list Z) :
  loop a b c d max_time rng fuel k s = Returned ts xs ys ->
  (length (times s) <= length ts <= length (times s) + fuel)%nat.
Proof.
  revert k s. induction fuel as [|fuel IH]; intros k s Hrun; cbn [loop] in Hrun;
    destruct (stopped a b c d max_time s);
    try (injection Hrun as <- _ _; lia);
    destruct (Qltb _ _); try discriminate Hrun.
  apply IH in Hrun.
  assert (Hlen : length (times (advance a b c d (rng k) s))
                 = S (length (times s))).
  { unfold advance. destruct (apply_event _ _ _). cbn.
    rewrite length_app. cbn. lia. }
  lia.
Qed.

(** ** Events that cannot fire *)

(** With predation rate [b == 0] the prey count never goes down along the
    trajectory, and with death rate [c == 0] the predator count never goes
    down, whatever the random source draws; with birth rate [a == 0] and
    uniform variates that are not negative, the prey count never goes up. *)
Theorem gillespie_lv_zero_rate_events
    (prey_init pred_init : Z) (a b c d max_time : Q)
    (rng : RandomSource) (fuel : nat) (ts : list Q) (xs ys : list Z) :
  gillespie_lv prey_init pred_init a b c d max_time rng fuel = Returned ts xs ys ->
  (b == 0 ->
   adjacent (fun s1 s2 => (s_prey s1 <= s_prey s2)%Z) (samples ts xs ys)) /\
  (c == 0 ->
   adjacent (fun s1 s2 => (s_pred s1 <= s_pred s2)%Z) (samples ts xs ys)) /\
  (a == 0 -> (forall k, 0 <= uniform (rng k)) ->
   adjacent (fun s1 s2 => (s_prey s2 <= s_prey s1)%Z) (samples ts xs ys)).
Proof.
  intros Hrun. apply gillespie_lv_returned in Hrun.
  destruct Hrun as (k & s & Hr & _ & -> & _).
  split; [|split].
  - intros Hb. eapply reachable_adjacent; [exact Hr|].
    intros j s' _ _ _. rewrite current_advance.
    pose proof (choose_event_cases (rates a b c d (prey s') (pred s'))
                  (uniform (rng j))) as Hc4.
    cbn in Hc4.
    assert (Hz : b * inject_Z (prey s') * inject_Z (pred s') == 0)
      by (rewrite Hb; ring).
    destruct Hc4 as [[E ?]|[[E ?]|[[E ?]|[E ?]]]]; rewrite E; cbn; try lia.
    exfalso. lra.
  - intros Hc. eapply reachable_adjacent; [exact Hr|].
    intros j s' _ _ _. rewrite current_advance.
    pose proof (choose_event_cases (rates a b c d (prey s') (pred s'))
                  (uniform (rng j))) as Hc4.
    cbn in Hc4.
    assert (Hz : c * inject_Z (pred s') == 0) by (rewrite Hc; ring).
    destruct Hc4 as [[E ?]|[[E ?]|[[E ?]|[E ?]]]]; rewrite E; cbn; try lia.
    exfalso. lra.
  - intros Ha Hu. eapply reachable_adjacent; [exact Hr|].
    intros j s' _ _ _. rewrite current_advance.
    pose proof (choose_event_cases (rates a b c d (prey s') (pred s'))
                  (uniform (rng j))) as Hc4.
    cbn in Hc4. specialize (Hu j).
    assert (Hz : a * inject_Z (prey s') == 0) by (rewrite Ha; ring).
    destruct Hc4 as [[E ?]|[[E ?]|[[E ?]|[E ?]]]]; rewrite E; cbn; try lia.
    exfalso. lra.
Qed.

(** ** How a run with a positive rate ends *)

Lemma reachable_nonneg (a b c d max_time : Q) (rng : RandomSource)
    (prey_init pred_init : Z) (k : nat) (s : Sim) :
  (0 <= prey_init)%Z -> (0 <= pred_init)%Z ->
  reachable a b c d max_time rng (initial prey_init pred_init) k s ->
  (0 <= prey s)%Z /\ (0 <= pred s)%Z.
Proof.
  intros Hx Hy. induction 1 as [|k s Hr IH Hst]; [split; assumption|].
  apply stopped_false in Hst. destruct Hst as (_ & Hx' & Hy' & _).
  unfold advance. destruct (choose_event _ _); cbn; lia.
Qed.

Lemma total_rate_zero_rates (a b c d : Q) (s : Sim) :
  0 <= a -> 0 <= b -> 0 <= c -> 0 <= d ->
  (0 < prey s)%Z -> (0 < pred s)%Z ->
  total_rate a b c d s == 0 ->
  a == 0 /\ b == 0 /\ c == 0 /\ d == 0.
Proof.
  intros Ha Hb Hc Hd Hx Hy Hz.
  destruct (rates_nonneg a b c d (prey s) (pred s) Ha Hb Hc Hd)
    as (H0 & H1 & H2 & H3); try lia.
  apply inject_Z_pos in Hx, Hy.
  unfold total_rate, sum in Hz. cbn in Hz, H0, H1, H2, H3.
  set (X := inject_Z (prey s)) in *. set (Y := inject_Z (pred s)) in *.
  assert (Hnz : forall p q, 0 < q -> p * q == 0 -> p == 0).
  { intros p q Hq Hpq. apply Qmult_integral in Hpq.
    destruct Hpq as [Hp|Hq0]; [exact Hp|]. rewrite Hq0 in Hq.
    now apply Qlt_irrefl in Hq. }
  assert (E0 : a * X == 0) by lra.
  assert (E1 : b * X * Y == 0) by lra.
  assert (E2 : c * Y == 0) by lra.
  assert (E3 : d * X * Y == 0) by lra.
  repeat split.
  - exact (Hnz a X Hx E0).
  - exact (Hnz b X Hx (Hnz (b * X) Y Hy E1)).
  - exact (Hnz c Y Hy E2).
  - exact (Hnz d X Hx (Hnz (d * X) Y Hy E3)).
Qed.

(** With non-negative rates that are not all zero and non-negative initial
    counts, the [break] on a zero total rate is never taken: the last sample
    of the returned trajectory is at or past the horizon, or one of the two
    species is extinct there. *)
Theorem gillespie_lv_ends_at_horizon_or_extinction
    (prey_init pred_init : Z) (a b c d max_time : Q)
    (rng : RandomSource) (fuel : nat) (ts : list Q) (xs ys : list Z) :
  0 <= a -> 0 <= b -> 0 <= c -> 0 <= d ->
  ~ (a == 0 /\ b == 0 /\ c == 0 /\ d == 0) ->
  (0 <= prey_init)%Z -> (0 <= pred_init)%Z ->
  gillespie_lv prey_init pred_init a b c d max_time rng fuel = Returned ts xs ys ->
  exists front final,
    samples ts xs ys = front ++ [final] /\
    (max_time <= s_time final \/ s_prey final = 0%Z \/ s_pred final = 0%Z).
Proof.
  intros Ha Hb Hc Hd Hsome Hx Hy Hrun. apply gillespie_lv_returned in Hrun.
  destruct Hrun as (k & s & Hr & Hst & -> & _).
  destruct (reachable_well_shaped _ _ _ _ _ _ _ _ _ _ Hr) as (_ & _ & h & Hh).
  destruct (reachable_nonneg _ _ _ _ _ _ _ _ _ _ Hx Hy Hr) as (Hx' & Hy').
  exists h, (current s). split; [exact Hh|]. cbn.
  destruct (Qlt_le_dec (t s) max_time) as [Ht|Ht]; [|now left].
  destruct (Z.eq_dec (prey s) 0) as [Hp|Hp]; [now right; left|].
  destruct (Z.eq_dec (pred s) 0) as [Hq|Hq]; [now right; right|].
  exfalso. apply stopped_true in Hst.
  destruct Hst as [H|[H|[H|H]]]; try lia.
  - apply Hsome. apply (total_rate_zero_rates a b c d s); auto; lia.
  - exact (Qlt_not_le _ _ Ht H).
Qed.

(** ** The variates that a run reads *)

Lemma times_advance (a b c d : Q) (dr : Draw) (s : Sim) :
  length (times (advance a b c d dr s)) = S (length (times s)).
Proof.
  unfold advance. destruct (apply_event _ _ _). cbn.
  rewrite length_app. cbn. lia.
Qed.

Lemma loop_footprint (a b c d max_time : Q) (rng1 rng2 : RandomSource)
    (fuel k : nat) (s : Sim) (ts : list Q) (xs ys : list Z) :
  loop a b c d max_time rng1 fuel k s = Returned ts xs ys ->
  (forall j, (k <= j)%nat -> (j - k + length (times s) < length ts)%nat ->
             rng1 j = rng2 j) ->
  loop a b c d max_time rng2 fuel k s = Returned ts xs ys.
Proof.
  revert k s. induction fuel as [|fuel IH]; intros k s Hrun Hext;
    cbn [loop] in Hrun |- *;
    destruct (stopped a b c d max_time s); try exact Hrun;
    destruct (Qltb _ _); try discriminate Hrun.
  pose proof (loop_length _ _ _ _ _ _ _ _ _ _ _ _ Hrun) as [Hlen _].
  rewrite times_advance in Hlen.
  rewrite <- (Hext k) by lia.
  apply IH; [exact Hrun|].
  intros j Hj Hlt. rewrite times_advance in Hlt. apply Hext; lia.
Qed.

(** A run reads one pair of variates per recorded event and nothing else:
    a random source that agrees with the first one on the iterations that
    recorded a sample gives the same three arrays. *)
Theorem gillespie_lv_reads_one_draw_per_event
    (prey_init pred_init : Z) (a b c d max_time : Q)
    (rng1 rng2 : RandomSource) (fuel : nat) (ts : list Q) (xs ys : list Z) :
  gillespie_lv prey_init pred_init a b c d max_time rng1 fuel
  = Returned ts xs ys ->
  (forall j, (S j < length ts)%nat -> rng1 j = rng2 j) ->
  gillespie_lv prey_init pred_init a b c d max_time rng2 fuel
  = Returned ts xs ys.
Proof.
  intros Hrun Hext. unfold gillespie_lv in *.
  apply (loop_footprint _ _ _ _ _ rng1); [exact Hrun|].
  intros j _ Hlt. cbn in Hlt. apply Hext. lia.
Qed.

(** ** The handler *)




(** ** The further properties at concrete inputs *)

(** The run behind most of the examples below: a birth, a predator
    reproduction, a birth, the last one past the horizon [5/2]. *)
Example run_mixed :
  gillespie_lv 2 1 1 (1 # 2) 1 (1 # 2) (5 # 2) rng_mixed 10
  = Returned [0; 1; 2; 3] [2; 3; 3; 4]%Z [1; 1; 2; 2]%Z.
Proof. reflexivity. Qed.

Lemma gillespie_lv_cut_at_first_stop_mixed :
  exists front final,
    samples [0; 1; 2; 3] [2; 3; 3; 4]%Z [1; 1; 2; 2]%Z = front ++ [final] /\
    Forall (live 1 (1 # 2) 1 (1 # 2) (5 # 2)) front /\
    ~ live 1 (1 # 2) 1 (1 # 2) (5 # 2) final.
Proof.
  apply (gillespie_lv_cut_at_first_stop 2 1 1 (1 # 2) 1 (1 # 2) (5 # 2)
           rng_mixed 10).
  reflexivity.
Defined.

Lemma gillespie_lv_times_accumulate_mixed :
  s_time (mkSample 2 3 2) = sum (waits rng_mixed 2).
Proof.
  apply (gillespie_lv_times_accumulate 2 1 1 (1 # 2) 1 (1 # 2) (5 # 2)
           rng_mixed 10 [0; 1; 2; 3] [2; 3; 3; 4]%Z [1; 1; 2; 2]%Z 2);
    reflexivity.
Defined.

Lemma gillespie_lv_zero_rate_events_births :
  adjacent (fun s1 s2 => (s_prey s1 <= s_prey s2)%Z)
    (samples [0; 1; 2; 3] [2; 3; 4; 5]%Z [1; 1; 1; 1]%Z).
Proof.
  apply (gillespie_lv_zero_rate_events 2 1 1 0 0 0 (5 # 2) rng_unit 10);
    reflexivity.
Defined.

Lemma gillespie_lv_ends_at_horizon_mixed :
  exists front final,
    samples [0; 1; 2; 3] [2; 3; 3; 4]%Z [1; 1; 2; 2]%Z = front ++ [final] /\
    (5 # 2 <= s_time final \/ s_prey final = 0%Z \/ s_pred final = 0%Z).
Proof.
  apply (gillespie_lv_ends_at_horizon_or_extinction 2 1 1 (1 # 2) 1 (1 # 2)
           (5 # 2) rng_mixed 10);
    try by_computation.
  intros (H & _). discriminate H.
Defined.

Lemma gillespie_lv_reads_three_draws :
  gillespie_lv 2 1 1 0 0 0 (5 # 2) rng_unit_then 10
  = Returned [0; 1; 2; 3] [2; 3; 4; 5]%Z [1; 1; 1; 1]%Z.
Proof.
  apply (gillespie_lv_reads_one_draw_per_event 2 1 1 0 0 0 (5 # 2) rng_unit).
  - reflexivity.
  - intros j Hj. cbn in Hj.
    destruct j as [|[|[|j]]]; [reflexivity|reflexivity|reflexivity|lia].
Defined.


(** * Properties of the binary64 model *)

(** ** The loop of the binary64 model as a state machine *)

Lemma f64_samples_app (ts ts' : list float) (xs xs' ys ys' : list Z) :
  length ts = length xs -> length xs = length ys ->
  F64.samples (ts ++ ts') (xs ++ xs') (ys ++ ys')
  = F64.samples ts xs ys ++ F64.samples ts' xs' ys'.
Proof.
  revert xs ys. induction ts as [|t0 ts IH]; intros [|x xs] [|y ys] Hx Hy;
    try discriminate; [reflexivity|].
  cbn in *. f_equal. apply IH; congruence.
Qed.

Lemma f64_samples_length (ts : list float) (xs ys : list Z) :
  length ts = length xs -> length xs = length ys ->
  length (F64.samples ts xs ys) = length ts.
Proof.
  revert xs ys. induction ts as [|t0 ts IH]; intros [|x xs] [|y ys] Hx Hy;
    try discriminate; [reflexivity|].
  cbn in *. f_equal. apply IH; congruence.
Qed.

Section F64LoopFacts.

Variables a b c d : float.
Variable max_time : Z.
Variable rng : F64.RandomSource.
Variables prey_init pred_init : Z.

Let s0 := F64.initial prey_init pred_init.
Let reach := F64.reachable a b c d max_time rng s0.

Lemma f64_advance_fields (rs : list float) (dr : F64.Draw) (s : F64.Sim) :
  let e := F64.choose_event rs (F64.uniform dr) in
  let t' := (F64.t s + F64.exponential dr)%float in
  let x' := fst (apply_event e (F64.prey s) (F64.pred s)) in
  let y' := snd (apply_event e (F64.prey s) (F64.pred s)) in
  F64.advance rs dr s
  = F64.mkSim t' x' y' (F64.times s ++ [t']) (F64.prey_pop s ++ [x'])
      (F64.pred_pop s ++ [y']).
Proof.
  intros e t' x' y'. unfold F64.advance. fold e. subst x' y'.
  now destruct (apply_event e (F64.prey s) (F64.pred s)).
Qed.

(** The three lists have one length and end with the current values. *)
Lemma f64_reachable_shape (k : nat) (s : F64.Sim) :
  reach k s ->
  length (F64.times s) = S k /\
  length (F64.prey_pop s) = S k /\
  length (F64.pred_pop s) = S k /\
  exists h, F64.history s = h ++ [F64.current s] /\ length h = k.
Proof.
  induction 1 as [|k s rs Hr (Ht & Hx & Hy & h & Hh & Hlen) Hgo].
  - repeat split. exists []. split; reflexivity.
  - rewrite f64_advance_fields. cbn.
    rewrite !length_app. cbn. repeat split; try lia.
    exists (F64.history s). split.
    + unfold F64.history at 1. cbn. rewrite f64_samples_app by congruence.
      reflexivity.
    + rewrite Hh, length_app. cbn. lia.
Qed.

Lemma f64_history_advance (k : nat) (s : F64.Sim) (rs : list float) :
  reach k s ->
  F64.history (F64.advance rs (rng k) s)
  = F64.history s ++ [F64.current (F64.advance rs (rng k) s)].
Proof.
  intros Hr. destruct (f64_reachable_shape k s Hr) as (Ht & Hx & Hy & _).
  rewrite f64_advance_fields. unfold F64.history. cbn.
  rewrite f64_samples_app by congruence. reflexivity.
Qed.

(** A run that finishes does so in a reachable state that leaves the loop. *)
Lemma f64_loop_finished (fuel k : nat) (s s' : F64.Sim) :
  reach k s ->
  F64.loop a b c d max_time rng fuel k s = F64.Finished s' ->
  exists k', reach k' s' /\ F64.decide a b c d max_time s' = F64.Leave.
Proof.
  revert k s. induction fuel as [|fuel IH]; intros k s Hr Hrun;
    cbn [F64.loop] in Hrun;
    destruct (F64.decide a b c d max_time s) as [|rs|e] eqn:Hd.
  - injection Hrun as <-. now exists k.
  - discriminate Hrun.
  - discriminate Hrun.
  - injection Hrun as <-. now exists k.
  - apply IH in Hrun; [exact Hrun|]. now apply F64.reach_advance.
  - discriminate Hrun.
Qed.

(** What the decision [Go] and the decision [Leave] say. *)
Lemma f64_decide_go (s : F64.Sim) (rs : list float) :
  F64.decide a b c d max_time s = F64.Go rs ->
  F64.float_lt_int (F64.t s) max_time = true /\
  (0 < F64.prey s)%Z /\ (0 < F64.pred s)%Z /\
  F64.rates a b c d (F64.prey s) (F64.pred s) = Some rs /\
  (F64.sum rs =? 0)%float = false.
Proof.
  unfold F64.decide, F64.loop_guard. intros H.
  destruct (F64.float_lt_int (F64.t s) max_time); [|discriminate H].
  destruct (0 <? F64.prey s)%Z eqn:Hx; [|discriminate H].
  destruct (0 <? F64.pred s)%Z eqn:Hy; [|discriminate H].
  cbn in H.
  destruct (F64.rates a b c d (F64.prey s) (F64.pred s)) as [rs'|];
    [|discriminate H].
  destruct (F64.sum rs' =? 0)%float eqn:Hz; [discriminate H|].
  destruct (_ && _); [discriminate H|].
  destruct (negb _); [discriminate H|].
  injection H as <-. apply Z.ltb_lt in Hx, Hy.
  repeat split; try assumption; reflexivity.
Qed.

Lemma f64_decide_leave (s : F64.Sim) :
  F64.decide a b c d max_time s = F64.Leave ->
  F64.float_lt_int (F64.t s) max_time = false \/
  (F64.prey s <= 0)%Z \/ (F64.pred s <= 0)%Z \/
  exists rs, F64.rates a b c d (F64.prey s) (F64.pred s) = Some rs /\
             (F64.sum rs =? 0)%float = true.
Proof.
  unfold F64.decide, F64.loop_guard. intros H.
  destruct (F64.float_lt_int (F64.t s) max_time); [|now left].
  destruct (0 <? F64.prey s)%Z eqn:Hx;
    [|right; left; now apply Z.ltb_ge].
  destruct (0 <? F64.pred s)%Z eqn:Hy;
    [|right; right; left; now apply Z.ltb_ge].
  cbn in H.
  destruct (F64.rates a b c d (F64.prey s) (F64.pred s)) as [rs|];
    [|discriminate H].
  destruct (F64.sum rs =? 0)%float eqn:Hz.
  - right; right; right. now exists rs.
  - destruct (_ && _); [discriminate H|].
    destruct (negb _); discriminate H.
Qed.

(** A relation that every iteration establishes between the sample it
    starts from and the sample it records holds all along the history. *)
Lemma f64_reachable_adjacent (R : F64.Sample -> F64.Sample -> Prop)
    (k : nat) (s : F64.Sim) :
  reach k s ->
  (forall j s' rs, (j < k)%nat -> reach j s' ->
     F64.decide a b c d max_time s' = F64.Go rs ->
     R (F64.current s') (F64.current (F64.advance rs (rng j) s'))) ->
  adjacent R (F64.history s).
Proof.
  induction 1 as [|k s rs Hr IH Hgo]; intros Hstep.
  - apply adjacent_single.
  - rewrite f64_history_advance by exact Hr.
    destruct (f64_reachable_shape k s Hr) as (_ & _ & _ & h & Hh & _).
    rewrite Hh. apply adjacent_snoc.
    + rewrite <- Hh. apply IH. intros j s' rs' Hj. apply Hstep. lia.
    + apply Hstep; [lia|assumption|assumption].
Qed.

Lemma f64_reachable_nonneg (k : nat) (s : F64.Sim) :
  (0 <= prey_init)%Z -> (0 <= pred_init)%Z ->
  reach k s -> (0 <= F64.prey s)%Z /\ (0 <= F64.pred s)%Z.
Proof.
  intros Hx Hy. induction 1 as [|k s rs Hr IH Hgo]; [split; assumption|].
  apply f64_decide_go in Hgo. destruct Hgo as (_ & Hx' & Hy' & _).
  rewrite f64_advance_fields. cbn.
  destruct (F64.choose_event _ _); cbn; lia.
Qed.

Lemma f64_reachable_head (k : nat) (s : F64.Sim) :
  reach k s -> exists h, F64.history s = F64.current s0 :: h.
Proof.
  induction 1 as [|k s rs Hr [h IH] Hgo].
  - now exists [].
  - rewrite f64_history_advance by exact Hr. rewrite IH. eexists. reflexivity.
Qed.

(** The sample at position [i] belongs to the state of the [i]-th test; below
    the last position that state went through the loop body. *)
Lemma f64_reachable_next (k : nat) (s : F64.Sim) :
  reach k s ->
  forall i, (i < k)%nat ->
    exists s' rs, reach i s' /\ F64.decide a b c d max_time s' = F64.Go rs /\
      nth_error (F64.history s) i = Some (F64.current s') /\
      nth_error (F64.history s) (S i)
      = Some (F64.current (F64.advance rs (rng i) s')).
Proof.
  induction 1 as [|k s rs Hr IH Hgo]; intros i Hi; [lia|].
  destruct (f64_reachable_shape k s Hr) as (_ & _ & _ & h & Hh & Hlen).
  rewrite f64_history_advance by exact Hr.
  assert (Hhl : length (F64.history s) = S k)
    by (rewrite Hh, length_app; cbn; lia).
  destruct (Nat.eq_dec i k) as [->|Hne].
  - exists s, rs. split; [exact Hr|]. split; [exact Hgo|]. split.
    + rewrite nth_error_app1 by lia. rewrite Hh.
      rewrite nth_error_app2 by lia.
      replace (k - length h)%nat with 0%nat by lia. reflexivity.
    + rewrite nth_error_app2 by lia. rewrite Hhl, Nat.sub_diag. reflexivity.
  - destruct (IH i) as (s' & rs' & Hr' & Hgo' & Hi0 & Hi1); [lia|].
    exists s', rs'. split; [exact Hr'|]. split; [exact Hgo'|].
    rewrite !nth_error_app1 by lia. now split.
Qed.

End F64LoopFacts.

(** ** What the function returns, in terms of the loop *)

Lemma f64_gillespie_lv_returned
    (prey_init pred_init : Z) (a b c d : float) (max_time : Z)
    (rng : F64.RandomSource) (fuel : nat)
    (ts : list float) (xa ya : F64.ndarray) :
  F64.gillespie_lv prey_init pred_init a b c d max_time rng fuel
  = F64.Returned ts xa ya ->
  exists k s,
    F64.reachable a b c d max_time rng (F64.initial prey_init pred_init) k s /\
    F64.decide a b c d max_time s = F64.Leave /\
    ts = F64.times s /\
    xa = F64.np_array (F64.prey_pop s) /\
    ya = F64.np_array (F64.pred_pop s).
Proof.
  unfold F64.gillespie_lv. intros Hrun.
  destruct (F64.loop _ _ _ _ _ _ _ _ _) as [s| |] eqn:Hloop;
    try discriminate Hrun.
  injection Hrun as <- <- <-.
  apply f64_loop_finished with (prey_init := prey_init) (pred_init := pred_init)
    in Hloop; [|apply F64.reach_start].
  destruct Hloop as (k & Hr & Hd). now exists k, s.
Qed.

Lemma f64_exact_items_np_array (l l' : list Z) :
  F64.exact_items (F64.np_array l) = Some l' -> l' = l.
Proof.
  unfold F64.np_array.
  destruct (negb _); [cbn; congruence|].
  destruct (forallb F64.fits_int64 l); [cbn; congruence|].
  destruct (forallb _ l); cbn; congruence.
Qed.

(** A run started in a reachable state is the rest of the run started in the
    initial state. *)
Lemma f64_loop_from_reachable
    (a b c d : float) (max_time : Z) (rng : F64.RandomSource) (s0 : F64.Sim)
    (k : nat) (s : F64.Sim) :
  F64.reachable a b c d max_time rng s0 k s ->
  forall fuel,
    F64.loop a b c d max_time rng (k + fuel) 0 s0
    = F64.loop a b c d max_time rng fuel k s.
Proof.
  induction 1 as [|k s rs Hr IH Hgo]; intros fuel; [reflexivity|].
  replace (S k + fuel)%nat with (k + S fuel)%nat by lia.
  rewrite IH. cbn [F64.loop]. now rewrite Hgo.
Qed.

Lemma f64_reachable_times
    (a b c d : float) (max_time : Z) (rng : F64.RandomSource)
    (prey_init pred_init : Z) (k : nat) (s : F64.Sim) :
  F64.reachable a b c d max_time rng (F64.initial prey_init pred_init) k s ->
  exists l, F64.times s = l ++ [F64.t s] /\
            Forall (fun x => F64.float_lt_int x max_time = true) l.
Proof.
  induction 1 as [|k s rs Hr (l & Hl & Hall) Hgo].
  - exists []. split; [reflexivity|constructor].
  - rewrite f64_advance_fields. cbn. exists (F64.times s).
    split; [reflexivity|]. rewrite Hl. apply Forall_app. split; [exact Hall|].
    constructor; [|constructor]. now apply f64_decide_go in Hgo.
Qed.

(** ** The horizon *)

(** C6: a recorded time that is not below [max_time] is the last one, so at
    most one sample is at or past the horizon; when an iteration moves the
    time to or past [max_time], its event is applied (the count it concerns
    moves by one) and recorded with its own time, not clipped, and the
    function returns right after it; and the recorded time can be strictly
    past [max_time]. *)
Theorem f64_gillespie_lv_horizon
    (prey_init pred_init : Z) (a b c d : float) (max_time : Z)
    (rng : F64.RandomSource) :
  (forall fuel ts xa ya i ti,
     F64.gillespie_lv prey_init pred_init a b c d max_time rng fuel
     = F64.Returned ts xa ya ->
     nth_error ts i = Some ti ->
     F64.float_lt_int ti max_time = false ->
     S i = length ts) /\
  (forall fuel k s rs,
     F64.reachable a b c d max_time rng (F64.initial prey_init pred_init) k s ->
     F64.decide a b c d max_time s = F64.Go rs ->
     F64.float_lt_int (F64.t s + F64.exponential (rng k))%float max_time
     = false ->
     exists prey' pred',
       F64.event_effect (F64.choose_event rs (F64.uniform (rng k)))
         (F64.prey s) (F64.pred s) prey' pred' /\
       F64.gillespie_lv prey_init pred_init a b c d max_time rng (S k + fuel)
       = F64.Returned
           (F64.times s ++ [(F64.t s + F64.exponential (rng k))%float])
           (F64.np_array (F64.prey_pop s ++ [prey']))
           (F64.np_array (F64.pred_pop s ++ [pred']))) /\
  (exists xa ya,
     F64.gillespie_lv 2 1 1 0 0 0 2 F64.rng_long 10
     = F64.Returned [0; 1.5; 3]%float xa ya /\
     F64.float_lt_int 3 2 = false /\ F64.float_lt_int 2 3 = true).
Proof.
  split; [|split].
  - intros fuel ts xa ya i ti Hrun Hi Hge.
    apply f64_gillespie_lv_returned in Hrun.
    destruct Hrun as (k & s & Hr & _ & -> & _).
    destruct (f64_reachable_times _ _ _ _ _ _ _ _ _ _ Hr) as (l & Hl & Hall).
    rewrite Hl in Hi |- *. rewrite length_app. cbn.
    destruct (Nat.lt_ge_cases i (length l)) as [Hlt|Hle].
    + rewrite nth_error_app1 in Hi by exact Hlt.
      rewrite Forall_forall in Hall. apply nth_error_In in Hi.
      apply Hall in Hi. congruence.
    + assert (Hsome : nth_error (l ++ [F64.t s]) i <> None) by congruence.
      apply nth_error_Some in Hsome. rewrite length_app in Hsome.
      cbn in Hsome. lia.
  - intros fuel k s rs Hr Hgo Hover.
    set (e := F64.choose_event rs (F64.uniform (rng k))).
    exists (fst (apply_event e (F64.prey s) (F64.pred s))),
           (snd (apply_event e (F64.prey s) (F64.pred s))).
    split; [destruct e; cbn; auto|].
    unfold F64.gillespie_lv.
    replace (S k + fuel)%nat with (k + S fuel)%nat by lia.
    rewrite (f64_loop_from_reachable _ _ _ _ _ _ _ _ _ Hr).
    cbn [F64.loop]. rewrite Hgo.
    assert (Hleave : F64.decide a b c d max_time (F64.advance rs (rng k) s)
                     = F64.Leave).
    { rewrite f64_advance_fields. unfold F64.decide, F64.loop_guard. cbn.
      now rewrite Hover. }
    destruct fuel; cbn [F64.loop]; rewrite Hleave;
      rewrite f64_advance_fields; reflexivity.
  - do 2 eexists. split; [vm_compute; reflexivity|].
    split; vm_compute; reflexivity.
Qed.

(** ** Two runs on the same variates *)

Lemma f64_advance_times (rs : list float) (dr : F64.Draw) (s : F64.Sim) :
  length (F64.times (F64.advance rs dr s)) = S (length (F64.times s)).
Proof. rewrite f64_advance_fields. cbn. rewrite length_app. cbn. lia. Qed.

Lemma f64_loop_length
    (a b c d : float) (max_time : Z) (rng : F64.RandomSource)
    (fuel k : nat) (s s' : F64.Sim) :
  F64.loop a b c d max_time rng fuel k s = F64.Finished s' ->
  (length (F64.times s) <= length (F64.times s') <= length (F64.times s) + fuel)%nat.
Proof.
  revert k s. induction fuel as [|fuel IH]; intros k s Hrun;
    cbn [F64.loop] in Hrun;
    destruct (F64.decide a b c d max_time s) as [|rs|e];
    try discriminate Hrun; try (injection Hrun as <-; lia).
  apply IH in Hrun. rewrite f64_advance_times in Hrun. lia.
Qed.

Lemma f64_loop_footprint
    (a b c d : float) (max_time : Z) (rng1 rng2 : F64.RandomSource)
    (fuel1 fuel2 k : nat) (s s' : F64.Sim) :
  F64.loop a b c d max_time rng1 fuel1 k s = F64.Finished s' ->
  (forall j, (k <= j)%nat ->
     (j - k + length (F64.times s) < length (F64.times s'))%nat ->
     rng1 j = rng2 j) ->
  (length (F64.times s') <= length (F64.times s) + fuel2)%nat ->
  F64.loop a b c d max_time rng2 fuel2 k s = F64.Finished s'.
Proof.
  revert fuel2 k s. induction fuel1 as [|fuel1 IH]; intros fuel2 k s Hrun Hext Hfuel;
    cbn [F64.loop] in Hrun;
    destruct (F64.decide a b c d max_time s) as [|rs|e] eqn:Hd;
    try discriminate Hrun;
    try (injection Hrun as <-; destruct fuel2; cbn [F64.loop]; now rewrite Hd).
  pose proof (f64_loop_length _ _ _ _ _ _ _ _ _ _ Hrun) as [Hlen _].
  rewrite f64_advance_times in Hlen.
  destruct fuel2 as [|fuel2]; [lia|].
  cbn [F64.loop]. rewrite Hd, <- (Hext k) by lia.
  apply IH; [exact Hrun| |rewrite f64_advance_times; lia].
  intros j Hj Hlt. rewrite f64_advance_times in Hlt. apply Hext; lia.
Qed.

Lemma f64_loop_short_fuel
    (a b c d : float) (max_time : Z) (rng1 rng2 : F64.RandomSource)
    (fuel1 fuel2 k : nat) (s s' : F64.Sim) :
  F64.loop a b c d max_time rng1 fuel1 k s = F64.Finished s' ->
  (forall j, (k <= j)%nat ->
     (j - k + length (F64.times s) < length (F64.times s'))%nat ->
     rng1 j = rng2 j) ->
  (length (F64.times s) + fuel2 < length (F64.times s'))%nat ->
  F64.loop a b c d max_time rng2 fuel2 k s = F64.NoFuel.
Proof.
  revert fuel2 k s. induction fuel1 as [|fuel1 IH]; intros fuel2 k s Hrun Hext Hfuel;
    cbn [F64.loop] in Hrun;
    destruct (F64.decide a b c d max_time s) as [|rs|e] eqn:Hd;
    try discriminate Hrun;
    try (injection Hrun as <-; lia).
  pose proof (f64_loop_length _ _ _ _ _ _ _ _ _ _ Hrun) as [Hlen _].
  rewrite f64_advance_times in Hlen.
  destruct fuel2 as [|fuel2]; cbn [F64.loop]; rewrite Hd; [reflexivity|].
  rewrite <- (Hext k) by lia.
  apply IH; [exact Hrun| |rewrite f64_advance_times; lia].
  intros j Hj Hlt. rewrite f64_advance_times in Hlt. apply Hext; lia.
Qed.

(** C10: the function is determined by its inputs and by the variates it
    draws.  When a run returns, a second run on the same inputs with a random
    source that supplies the same variates, even if only for the iterations
    the first run executed and whatever it would supply later, returns the
    same times and the same two count arrays; the only other outcome is that
    the fuel of the model is too small for the events of the first run. *)
Theorem f64_gillespie_lv_deterministic
    (prey_init pred_init : Z) (a b c d : float) (max_time : Z)
    (rng1 rng2 : F64.RandomSource) (fuel1 fuel2 : nat)
    (ts : list float) (xa ya : F64.ndarray) :
  F64.gillespie_lv prey_init pred_init a b c d max_time rng1 fuel1
  = F64.Returned ts xa ya ->
  (forall j, (S j < length ts)%nat -> rng1 j = rng2 j) ->
  ((length ts <= S fuel2)%nat ->
   F64.gillespie_lv prey_init pred_init a b c d max_time rng2 fuel2
   = F64.Returned ts xa ya) /\
  ((S fuel2 < length ts)%nat ->
   F64.gillespie_lv prey_init pred_init a b c d max_time rng2 fuel2
   = F64.OutOfFuel).
Proof.
  unfold F64.gillespie_lv. intros Hrun Hext.
  destruct (F64.loop a b c d max_time rng1 fuel1 0 _) as [s| |] eqn:Hloop;
    try discriminate Hrun.
  injection Hrun as <- <- <-. split; intros Hfuel.
  - rewrite (f64_loop_footprint _ _ _ _ _ rng1 rng2 fuel1 fuel2 0%nat _ s Hloop);
      [reflexivity| |cbn; lia].
    intros j _ Hlt. cbn in Hlt. apply Hext. lia.
  - rewrite (f64_loop_short_fuel _ _ _ _ _ rng1 rng2 fuel1 fuel2 0%nat _ s Hloop);
      [reflexivity| |cbn; lia].
    intros j _ Hlt. cbn in Hlt. apply Hext. lia.
Qed.

(** ** First and last sample *)

(** C2, as stated, fails: from [prey_init = 2^63 - 1] one birth takes the
    prey list out of the int64 range, [np.array] returns doubles, and the
    first prey value returned is [2^63], not [prey_init]. *)
Lemma f64_first_sample_promoted :
  exists ts xa ya,
    F64.gillespie_lv (2 ^ 63 - 1) 1 1 0 0 0 1 F64.rng_one 5
    = F64.Returned ts xa ya /\
    F64.item_value xa 0 = Some (inject_Z (2 ^ 63)) /\
    ~ (inject_Z (2 ^ 63) == inject_Z (2 ^ 63 - 1))%Q.
Proof.
  do 3 eexists. split; [vm_compute; reflexivity|].
  split; [vm_compute; reflexivity|]. intros H. vm_compute in H. discriminate H.
Qed.

(** C2, amended: for [prey_init >= 1], [pred_init >= 1], non-negative rates
    and a positive horizon, when the two returned count arrays are integer
    arrays (not promoted to float64), the first sample is
    [(0, prey_init, pred_init)] and the last sample meets a stop condition of
    the loop: the total rate is zero there, or its time is not below
    [max_time], or its prey count is [0], or its predator count is [0]. *)
Theorem f64_gillespie_lv_first_last
    (prey_init pred_init : Z) (a b c d : float) (max_time : Z)
    (rng : F64.RandomSource) (fuel : nat)
    (ts : list float) (xa ya : F64.ndarray) (xs ys : list Z) :
  (1 <= prey_init)%Z -> (1 <= pred_init)%Z ->
  (0 <=? a)%float = true -> (0 <=? b)%float = true ->
  (0 <=? c)%float = true -> (0 <=? d)%float = true ->
  (0 < max_time)%Z ->
  F64.gillespie_lv prey_init pred_init a b c d max_time rng fuel
  = F64.Returned ts xa ya ->
  F64.exact_items xa = Some xs -> F64.exact_items ya = Some ys ->
  length ts = length xs /\ length xs = length ys /\
  (exists rest,
     F64.samples ts xs ys = F64.mkSample 0 prey_init pred_init :: rest) /\
  (exists front final,
     F64.samples ts xs ys = front ++ [final] /\
     F64.stop_condition a b c d max_time final).
Proof.
  intros Hx Hy _ _ _ _ _ Hrun Hxa Hya.
  apply f64_gillespie_lv_returned in Hrun.
  destruct Hrun as (k & s & Hr & Hd & -> & -> & ->).
  apply f64_exact_items_np_array in Hxa, Hya. subst xs ys.
  destruct (f64_reachable_shape _ _ _ _ _ _ _ _ _ _ Hr)
    as (Ht & Hxl & Hyl & h & Hh & _).
  split; [congruence|]. split; [congruence|]. split.
  - exact (f64_reachable_head _ _ _ _ _ _ _ _ _ _ Hr).
  - exists h, (F64.current s). split; [exact Hh|].
    destruct (f64_reachable_nonneg a b c d max_time rng prey_init pred_init k s)
      as (Hx0 & Hy0); [lia|lia|exact Hr|].
    apply f64_decide_leave in Hd. unfold F64.stop_condition. cbn.
    destruct Hd as [H|[H|[H|H]]].
    + now right; left.
    + right; right; left. lia.
    + right; right; right. lia.
    + now left.
Qed.

(** ** Unit steps *)

(** C3, as stated, fails: in the run from [prey_init = 2^63 - 1] the two
    samples returned hold the same prey value and the same predator value,
    although a birth happened between them. *)
Lemma f64_unit_step_promoted :
  exists ts xa ya,
    F64.gillespie_lv (2 ^ 63 - 1) 1 1 0 0 0 1 F64.rng_one 5
    = F64.Returned ts xa ya /\
    length ts = 2%nat /\
    F64.item_value xa 0 = F64.item_value xa 1 /\
    F64.item_value ya 0 = F64.item_value ya 1.
Proof.
  do 3 eexists. split; [vm_compute; reflexivity|].
  repeat split; vm_compute; reflexivity.
Qed.

(** C3, amended: when the two returned count arrays are integer arrays
    (not promoted to float64), between any two consecutive samples exactly
    one of the two counts changes, by [+1] or [-1], and the other count does
    not change. *)
Theorem f64_gillespie_lv_unit_steps
    (prey_init pred_init : Z) (a b c d : float) (max_time : Z)
    (rng : F64.RandomSource) (fuel : nat)
    (ts : list float) (xa ya : F64.ndarray) (xs ys : list Z) :
  F64.gillespie_lv prey_init pred_init a b c d max_time rng fuel
  = F64.Returned ts xa ya ->
  F64.exact_items xa = Some xs -> F64.exact_items ya = Some ys ->
  adjacent F64.unit_step (F64.samples ts xs ys).
Proof.
  intros Hrun Hxa Hya. apply f64_gillespie_lv_returned in Hrun.
  destruct Hrun as (k & s & Hr & _ & -> & -> & ->).
  apply f64_exact_items_np_array in Hxa, Hya. subst xs ys.
  eapply f64_reachable_adjacent; [exact Hr|].
  intros j s' rs _ _ _. rewrite f64_advance_fields. unfold F64.unit_step. cbn.
  destruct (F64.choose_event _ _); cbn; auto.
Qed.

(** ** Facts of binary64 arithmetic about zero *)

Lemma f64_zero_spec : Prim2SF 0 = S754_zero false.
Proof. reflexivity. Qed.

Lemma f64_eqb_zero (x : float) :
  (x =? 0)%float = true <-> sf_zero (Prim2SF x).
Proof.
  rewrite eqb_spec, f64_zero_spec. unfold SFeqb, sf_zero.
  destruct (Prim2SF x) as [s|s| |s m e]; cbn; split; intros H.
  - now exists s.
  - reflexivity.
  - destruct s; discriminate H.
  - destruct H as [s' H]. discriminate H.
  - discriminate H.
  - destruct H as [s' H]. discriminate H.
  - destruct s; discriminate H.
  - destruct H as [s' H]. discriminate H.
Qed.

Lemma f64_same_refl (x : float) : F64.same x x.
Proof. now left. Qed.






Lemma f64_same_eqb_zero (x x' : float) :
  F64.same x x' -> (x =? 0)%float = (x' =? 0)%float.
Proof.
  rewrite !eqb_spec, f64_zero_spec. intros [H|(s & s' & H & H')].
  - now rewrite H.
  - now rewrite H, H'.
Qed.


Lemma f64_is_finite_spec (x : float) :
  F64.is_finite x = true ->
  sf_zero (Prim2SF x) \/ exists s m e, Prim2SF x = S754_finite s m e.
Proof.
  unfold F64.is_finite. rewrite classify_spec. unfold SF64classify, sf_zero.
  destruct (Prim2SF x) as [s|s| |s m e]; cbn; intros H; eauto.
  - destruct s; discriminate H.
  - discriminate H.
Qed.

Lemma f64_mul_zero_l (z x : float) :
  sf_zero (Prim2SF z) -> F64.is_finite x = true ->
  sf_zero (Prim2SF (z * x)%float).
Proof.
  intros [s Hz] Hx. rewrite mul_spec, Hz. unfold SF64mul, sf_zero.
  destruct (f64_is_finite_spec x Hx) as [[s' H]|(s' & m & e & H)];
    rewrite H; cbn; eauto.
Qed.

Lemma f64_add_zero_zero (x y : float) :
  sf_zero (Prim2SF x) -> sf_zero (Prim2SF y) ->
  sf_zero (Prim2SF (x + y)%float).
Proof.
  intros [s Hx] [s' Hy]. rewrite add_spec, Hx, Hy. unfold sf_zero.
  destruct s, s'; cbn; eauto.
Qed.

Lemma f64_float_of_int_finite (n : Z) (x : float) :
  F64.float_of_int n = Some x -> F64.is_finite x = true.
Proof.
  unfold F64.float_of_int.
  destruct (F64.is_finite _) eqn:E; [|discriminate].
  intros H. injection H as <-. exact E.
Qed.

(** ** The order of binary64 *)














(** ** Event selection in binary64 *)




(** ** Time in binary64 *)




(** ** All rates zero *)

Lemma f64_np_array_single (n : Z) :
  F64.exact_items (F64.np_array [n]) = Some [n].
Proof.
  unfold F64.np_array. cbn.
  destruct (F64.fits_int64 n), (F64.fits_uint64 n); reflexivity.
Qed.

Lemma f64_loop_leave
    (a b c d : float) (max_time : Z) (rng : F64.RandomSource)
    (fuel k : nat) (s : F64.Sim) :
  F64.decide a b c d max_time s = F64.Leave ->
  F64.loop a b c d max_time rng fuel k s = F64.Finished s.
Proof. intros H. destruct fuel; cbn [F64.loop]; now rewrite H. Qed.

(** C9, as stated, fails: with all rates [0.0] and the positive count
    [10^400] the product [a * prey] raises [OverflowError], and nothing is
    returned. *)
Lemma f64_all_rates_zero_overflow :
  F64.gillespie_lv (10 ^ 400) 1 0 0 0 0 1 F64.rng_one 5
  = F64.Raises F64.OverflowError.
Proof. vm_compute. reflexivity. Qed.

(** C9, amended: with [a = b = c = d = 0] and positive initial counts that
    fit a binary64 float, the total rate of the initial state is zero, so the
    [break] is taken in the first iteration (reached whenever
    [0 < max_time]); the function returns exactly one sample, the initial
    state, in integer arrays. *)
Theorem f64_gillespie_lv_all_rates_zero
    (prey_init pred_init : Z) (a b c d : float) (max_time : Z)
    (rng : F64.RandomSource) (fuel : nat) (x y : float) :
  (a =? 0)%float = true -> (b =? 0)%float = true ->
  (c =? 0)%float = true -> (d =? 0)%float = true ->
  (0 < prey_init)%Z -> (0 < pred_init)%Z ->
  F64.float_of_int prey_init = Some x ->
  F64.float_of_int pred_init = Some y ->
  (exists rs, F64.rates a b c d prey_init pred_init = Some rs /\
              (F64.sum rs =? 0)%float = true) /\
  ((0 < max_time)%Z ->
   F64.loop_guard max_time (F64.initial prey_init pred_init) = true) /\
  F64.gillespie_lv prey_init pred_init a b c d max_time rng fuel
  = F64.Returned [0%float] (F64.np_array [prey_init])
      (F64.np_array [pred_init]) /\
  F64.exact_items (F64.np_array [prey_init]) = Some [prey_init] /\
  F64.exact_items (F64.np_array [pred_init]) = Some [pred_init].
Proof.
  intros Ha Hb Hc Hd Hx Hy Hfx Hfy.
  apply f64_eqb_zero in Ha, Hb, Hc, Hd.
  pose proof (f64_float_of_int_finite _ _ Hfx) as Fx.
  pose proof (f64_float_of_int_finite _ _ Hfy) as Fy.
  assert (Hrates : F64.rates a b c d prey_init pred_init
                   = Some [(a * x)%float; (b * x * y)%float;
                           (c * y)%float; (d * x * y)%float])
    by (unfold F64.rates; now rewrite Hfx, Hfy).
  assert (Hsum : (F64.sum [(a * x)%float; (b * x * y)%float;
                           (c * y)%float; (d * x * y)%float] =? 0)%float
                 = true).
  { apply f64_eqb_zero. unfold F64.sum. cbn.
    repeat apply f64_add_zero_zero;
      repeat apply f64_mul_zero_l; try assumption.
    exists false. reflexivity. }
  split; [eexists; split; [exact Hrates|exact Hsum]|].
  split.
  { intros Hm. unfold F64.loop_guard. cbn.
    apply Z.ltb_lt in Hm, Hx, Hy. now rewrite Hm, Hx, Hy. }
  split; [|split; apply f64_np_array_single].
  unfold F64.gillespie_lv. rewrite f64_loop_leave; [reflexivity|].
  unfold F64.decide.
  destruct (negb (F64.loop_guard max_time (F64.initial prey_init pred_init)));
    [reflexivity|].
  cbn [F64.prey F64.pred F64.initial]. rewrite Hrates. cbv zeta.
  now rewrite Hsum.
Qed.

(** ** The theorems of the binary64 model at concrete inputs *)

(** Three births from [(2, 1)] with waits of [1] and the horizon [3]. *)
Example f64_run_births :
  F64.gillespie_lv 2 1 1 0 0 0 3 F64.rng_one 10
  = F64.Returned [0; 1; 2; 3]%float
      (F64.IntArray F64.int64 [2; 3; 4; 5]%Z)
      (F64.IntArray F64.int64 [1; 1; 1; 1]%Z).
Proof. vm_compute. reflexivity. Qed.


Lemma f64_gillespie_lv_first_last_births :
  exists rest,
    F64.samples [0; 1; 2; 3]%float [2; 3; 4; 5]%Z [1; 1; 1; 1]%Z
    = F64.mkSample 0 2 1 :: rest.
Proof.
  apply (f64_gillespie_lv_first_last 2 1 1 0 0 0 3 F64.rng_one 10
           [0; 1; 2; 3]%float
           (F64.IntArray F64.int64 [2; 3; 4; 5]%Z)
           (F64.IntArray F64.int64 [1; 1; 1; 1]%Z));
    first [lia | vm_compute; reflexivity].
Defined.

Lemma f64_gillespie_lv_unit_steps_births :
  adjacent F64.unit_step
    (F64.samples [0; 1; 2; 3]%float [2; 3; 4; 5]%Z [1; 1; 1; 1]%Z).
Proof.
  apply (f64_gillespie_lv_unit_steps 2 1 1 0 0 0 3 F64.rng_one 10
           [0; 1; 2; 3]%float
           (F64.IntArray F64.int64 [2; 3; 4; 5]%Z)
           (F64.IntArray F64.int64 [1; 1; 1; 1]%Z));
    vm_compute; reflexivity.
Defined.


Lemma f64_gillespie_lv_horizon_births :
  4%nat = length [0; 1; 2; 3]%float.
Proof.
  destruct (f64_gillespie_lv_horizon 2 1 1 0 0 0 3 F64.rng_one) as (H & _ & _).
  apply (H 10%nat [0; 1; 2; 3]%float
           (F64.IntArray F64.int64 [2; 3; 4; 5]%Z)
           (F64.IntArray F64.int64 [1; 1; 1; 1]%Z) 3%nat 3%float);
    vm_compute; reflexivity.
Defined.

Lemma f64_gillespie_lv_all_rates_zero_3_4 :
  F64.gillespie_lv 3 4 0 0 0 0 50 F64.rng_one 0
  = F64.Returned [0%float] (F64.np_array [3%Z]) (F64.np_array [4%Z]).
Proof.
  apply (f64_gillespie_lv_all_rates_zero 3 4 0 0 0 0 50 F64.rng_one 0 3 4);
    first [lia | vm_compute; reflexivity].
Defined.

Lemma f64_gillespie_lv_deterministic_births :
  F64.gillespie_lv 2 1 1 0 0 0 3 F64.rng_one_then 7
  = F64.Returned [0; 1; 2; 3]%float
      (F64.IntArray F64.int64 [2; 3; 4; 5]%Z)
      (F64.IntArray F64.int64 [1; 1; 1; 1]%Z).
Proof.
  apply (f64_gillespie_lv_deterministic 2 1 1 0 0 0 3 F64.rng_one
           F64.rng_one_then 10 7).
  - vm_compute. reflexivity.
  - intros j Hj. cbn in Hj.
    destruct j as [|[|[|j]]]; [reflexivity|reflexivity|reflexivity|lia].
  - cbn. lia.
Defined.

(** * Further properties of the binary64 model *)

(** When the count arrays are integer arrays, each sample after the first is
    the previous sample moved by the iteration of the same position: the
    rates of the previous counts were computed without overflow, the time is
    the binary64 sum of the previous time and the exponential variate, and
    the counts are changed by the event that the uniform variate selects
    among the rounded thresholds. *)
Theorem f64_gillespie_lv_replay
    (prey_init pred_init : Z) (a b c d : float) (max_time : Z)
    (rng : F64.RandomSource) (fuel : nat)
    (ts : list float) (xa ya : F64.ndarray) (xs ys : list Z)
    (i : nat) (x y : F64.Sample) :
  F64.gillespie_lv prey_init pred_init a b c d max_time rng fuel
  = F64.Returned ts xa ya ->
  F64.exact_items xa = Some xs -> F64.exact_items ya = Some ys ->
  nth_error (F64.samples ts xs ys) i = Some x ->
  nth_error (F64.samples ts xs ys) (S i) = Some y ->
  exists rs,
    F64.rates a b c d (F64.s_prey x) (F64.s_pred x) = Some rs /\
    y = F64.next_sample rs (rng i) x.
Proof.
  intros Hrun Hxa Hya Hx Hy. apply f64_gillespie_lv_returned in Hrun.
  destruct Hrun as (k & s & Hr & _ & -> & -> & ->).
  apply f64_exact_items_np_array in Hxa, Hya. subst xs ys.
  fold (F64.history s) in Hx, Hy.
  destruct (f64_reachable_shape _ _ _ _ _ _ _ _ _ _ Hr)
    as (_ & _ & _ & h & Hh & Hlen).
  assert (Hlt : (i < k)%nat).
  { assert (Hsome : nth_error (F64.history s) (S i) <> None) by congruence.
    apply nth_error_Some in Hsome. rewrite Hh, length_app in Hsome.
    cbn in Hsome. lia. }
  destruct (f64_reachable_next _ _ _ _ _ _ _ _ _ _ Hr i Hlt)
    as (s' & rs & _ & Hgo & Hx' & Hy').
  rewrite Hx' in Hx. rewrite Hy' in Hy. injection Hx as <-. injection Hy as <-.
  exists rs. split; [now apply f64_decide_go in Hgo|].
  rewrite f64_advance_fields. reflexivity.
Qed.

Lemma f64_reachable_drift
    (a b c d : float) (max_time : Z) (rng : F64.RandomSource)
    (prey_init pred_init : Z) (k : nat) (s : F64.Sim) :
  F64.reachable a b c d max_time rng (F64.initial prey_init pred_init) k s ->
  (Z.abs (F64.prey s - prey_init) + Z.abs (F64.pred s - pred_init)
   <= Z.of_nat k)%Z /\
  Z.even (F64.prey s + F64.pred s - prey_init - pred_init) = Nat.even k.
Proof.
  induction 1 as [|k s rs Hr [IH Hpar] Hgo].
  - cbn. split; [lia|].
    now replace (prey_init + pred_init - prey_init - pred_init)%Z
      with 0%Z by lia.
  - set (z := (F64.prey s + F64.pred s - prey_init - pred_init)%Z) in *.
    assert (Hflip : forall z', (z' = z + 1 \/ z' = z - 1)%Z ->
                               Z.even z' = Nat.even (S k)).
    { intros z' [-> | ->];
        rewrite ?Z.even_add, ?Z.even_sub, Hpar, Nat.even_succ, <- Nat.negb_even;
        cbn; now destruct (Nat.even k). }
    rewrite f64_advance_fields. cbn [F64.prey F64.pred].
    destruct (F64.choose_event _ _); cbn; split; try lia;
      apply Hflip; subst z; lia.
Qed.

Lemma f64_reachable_at
    (a b c d : float) (max_time : Z) (rng : F64.RandomSource)
    (prey_init pred_init : Z) (k : nat) (s : F64.Sim) :
  F64.reachable a b c d max_time rng (F64.initial prey_init pred_init) k s ->
  forall i x, nth_error (F64.history s) i = Some x ->
    exists s',
      F64.reachable a b c d max_time rng (F64.initial prey_init pred_init) i s' /\
      x = F64.current s'.
Proof.
  induction 1 as [|k s rs Hr IH Hgo]; intros i x Hi.
  - destruct i as [|i]; cbn in Hi.
    + injection Hi as <-. eexists. split; [apply F64.reach_start|reflexivity].
    + destruct i; discriminate Hi.
  - destruct (f64_reachable_shape _ _ _ _ _ _ _ _ _ _ Hr)
      as (_ & _ & _ & h & Hh & Hlen).
    assert (Hhl : length (F64.history s) = S k)
      by (rewrite Hh, length_app; cbn; lia).
    rewrite (f64_history_advance a b c d max_time rng prey_init pred_init
               k s rs Hr) in Hi.
    destruct (Nat.lt_ge_cases i (S k)) as [Hlt|Hge].
    + rewrite nth_error_app1 in Hi by lia. exact (IH i x Hi).
    + rewrite nth_error_app2 in Hi by lia. rewrite Hhl in Hi.
      destruct (i - S k)%nat as [|n] eqn:E; cbn in Hi.
      * injection Hi as <-. assert (i = S k) by lia. subst i.
        eexists. split; [|reflexivity]. now apply F64.reach_advance.
      * destruct n; discriminate Hi.
Qed.

(** When the count arrays are integer arrays, the sample at position [i]
    has counts at total distance at most [i] from the initial counts, and
    the total count differs from the initial total by an even number exactly
    when [i] is even. *)
Theorem f64_gillespie_lv_drift
    (prey_init pred_init : Z) (a b c d : float) (max_time : Z)
    (rng : F64.RandomSource) (fuel : nat)
    (ts : list float) (xa ya : F64.ndarray) (xs ys : list Z)
    (i : nat) (x : F64.Sample) :
  F64.gillespie_lv prey_init pred_init a b c d max_time rng fuel
  = F64.Returned ts xa ya ->
  F64.exact_items xa = Some xs -> F64.exact_items ya = Some ys ->
  nth_error (F64.samples ts xs ys) i = Some x ->
  (Z.abs (F64.s_prey x - prey_init) + Z.abs (F64.s_pred x - pred_init)
   <= Z.of_nat i)%Z /\
  Z.even (F64.s_prey x + F64.s_pred x - prey_init - pred_init) = Nat.even i.
Proof.
  intros Hrun Hxa Hya Hx. apply f64_gillespie_lv_returned in Hrun.
  destruct Hrun as (k & s & Hr & _ & -> & -> & ->).
  apply f64_exact_items_np_array in Hxa, Hya. subst xs ys.
  destruct (f64_reachable_at _ _ _ _ _ _ _ _ _ _ Hr i x Hx) as (s' & Hr' & ->).
  exact (f64_reachable_drift _ _ _ _ _ _ _ _ _ _ Hr').
Qed.

Lemma f64_float_lt_int_mono (x : float) (n1 n2 : Z) :
  (n1 <= n2)%Z ->
  F64.float_lt_int x n1 = true -> F64.float_lt_int x n2 = true.
Proof.
  unfold F64.float_lt_int. intros Hle.
  destruct (Prim2SF x) as [s|s| |s m e]; try (intros H; exact H).
  - rewrite !Z.ltb_lt. lia.
  - destruct e as [|p|p]; rewrite !Z.ltb_lt; intros H; try lia.
    assert (Hpos : (0 < 2 ^ Z.pos p)%Z) by (apply Z.pow_pos_nonneg; lia).
    nia.
Qed.

Lemma f64_decide_later_horizon
    (a b c d : float) (max_time1 max_time2 : Z) (s : F64.Sim) (rs : list float) :
  (max_time1 <= max_time2)%Z ->
  F64.decide a b c d max_time1 s = F64.Go rs ->
  F64.decide a b c d max_time2 s = F64.Go rs.
Proof.
  intros Hle H1. pose proof (f64_decide_go _ _ _ _ _ _ _ H1)
    as (Ht1 & _).
  pose proof (f64_float_lt_int_mono _ _ _ Hle Ht1) as Ht2.
  unfold F64.decide, F64.loop_guard in *.
  rewrite Ht1 in H1. rewrite Ht2. exact H1.
Qed.

Lemma f64_loop_extends
    (a b c d : float) (max_time : Z) (rng : F64.RandomSource)
    (fuel k : nat) (s s' : F64.Sim) :
  F64.loop a b c d max_time rng fuel k s = F64.Finished s' ->
  exists ts' xs' ys',
    F64.times s' = F64.times s ++ ts' /\
    F64.prey_pop s' = F64.prey_pop s ++ xs' /\
    F64.pred_pop s' = F64.pred_pop s ++ ys'.
Proof.
  revert k s. induction fuel as [|fuel IH]; intros k s Hrun;
    cbn [F64.loop] in Hrun;
    destruct (F64.decide a b c d max_time s) as [|rs|e];
    try discriminate Hrun;
    try (injection Hrun as <-; exists [], [], []; now rewrite !app_nil_r).
  apply IH in Hrun. destruct Hrun as (ts' & xs' & ys' & Ht & Hx & Hy).
  rewrite f64_advance_fields in Ht, Hx, Hy. cbn in Ht, Hx, Hy.
  rewrite Ht, Hx, Hy, <- !app_assoc. do 3 eexists. repeat split; reflexivity.
Qed.

Lemma f64_loop_later_horizon
    (a b c d : float) (max_time1 max_time2 : Z) (rng : F64.RandomSource)
    (fuel1 fuel2 k : nat) (s s1 s2 : F64.Sim) :
  (max_time1 <= max_time2)%Z ->
  F64.loop a b c d max_time1 rng fuel1 k s = F64.Finished s1 ->
  F64.loop a b c d max_time2 rng fuel2 k s = F64.Finished s2 ->
  exists ts' xs' ys',
    F64.times s2 = F64.times s1 ++ ts' /\
    F64.prey_pop s2 = F64.prey_pop s1 ++ xs' /\
    F64.pred_pop s2 = F64.pred_pop s1 ++ ys'.
Proof.
  intros Hle. revert fuel2 k s.
  induction fuel1 as [|fuel1 IH]; intros fuel2 k s H1 H2; cbn [F64.loop] in H1;
    destruct (F64.decide a b c d max_time1 s) as [|rs|e] eqn:Hd;
    try discriminate H1;
    try (injection H1 as <-; exact (f64_loop_extends _ _ _ _ _ _ _ _ _ _ H2)).
  apply (f64_decide_later_horizon _ _ _ _ _ _ _ _ Hle) in Hd.
  destruct fuel2 as [|fuel2]; cbn [F64.loop] in H2; rewrite Hd in H2;
    [discriminate H2|].
  exact (IH _ _ _ H1 H2).
Qed.

(** Raising the horizon only appends samples: on the same inputs and the
    same random source, when all four count arrays returned are integer
    arrays, the times and counts returned for [max_time1] are prefixes of
    those returned for any [max_time2 >= max_time1]. *)
Theorem f64_gillespie_lv_later_horizon
    (prey_init pred_init : Z) (a b c d : float) (max_time1 max_time2 : Z)
    (rng : F64.RandomSource) (fuel1 fuel2 : nat)
    (ts1 ts2 : list float) (xa1 ya1 xa2 ya2 : F64.ndarray)
    (xs1 ys1 xs2 ys2 : list Z) :
  (max_time1 <= max_time2)%Z ->
  F64.gillespie_lv prey_init pred_init a b c d max_time1 rng fuel1
  = F64.Returned ts1 xa1 ya1 ->
  F64.gillespie_lv prey_init pred_init a b c d max_time2 rng fuel2
  = F64.Returned ts2 xa2 ya2 ->
  F64.exact_items xa1 = Some xs1 -> F64.exact_items ya1 = Some ys1 ->
  F64.exact_items xa2 = Some xs2 -> F64.exact_items ya2 = Some ys2 ->
  exists ts' xs' ys',
    ts2 = ts1 ++ ts' /\ xs2 = xs1 ++ xs' /\ ys2 = ys1 ++ ys'.
Proof.
  unfold F64.gillespie_lv. intros Hle H1 H2 Hx1 Hy1 Hx2 Hy2.
  destruct (F64.loop a b c d max_time1 rng fuel1 0 _) as [s1| |] eqn:L1;
    try discriminate H1.
  destruct (F64.loop a b c d max_time2 rng fuel2 0 _) as [s2| |] eqn:L2;
    try discriminate H2.
  injection H1 as <- <- <-. injection H2 as <- <- <-.
  apply f64_exact_items_np_array in Hx1, Hy1, Hx2, Hy2. subst.
  exact (f64_loop_later_horizon _ _ _ _ _ _ _ _ _ _ _ _ _ Hle L1 L2).
Qed.

(** ** The further properties of the binary64 model at concrete inputs *)

Lemma f64_gillespie_lv_replay_births :
  exists rs,
    F64.rates 1 0 0 0 3 1 = Some rs /\
    F64.mkSample 2 4 1 = F64.next_sample rs (F64.rng_one 1%nat) (F64.mkSample 1 3 1).
Proof.
  apply (f64_gillespie_lv_replay 2 1 1 0 0 0 3 F64.rng_one 10
           [0; 1; 2; 3]%float
           (F64.IntArray F64.int64 [2; 3; 4; 5]%Z)
           (F64.IntArray F64.int64 [1; 1; 1; 1]%Z)
           [2; 3; 4; 5]%Z [1; 1; 1; 1]%Z 1%nat
           (F64.mkSample 1 3 1) (F64.mkSample 2 4 1));
    vm_compute; reflexivity.
Defined.

Lemma f64_gillespie_lv_drift_births :
  (Z.abs (F64.s_prey (F64.mkSample 3 5 1) - 2)
   + Z.abs (F64.s_pred (F64.mkSample 3 5 1) - 1) <= Z.of_nat 3)%Z.
Proof.
  apply (f64_gillespie_lv_drift 2 1 1 0 0 0 3 F64.rng_one 10
           [0; 1; 2; 3]%float
           (F64.IntArray F64.int64 [2; 3; 4; 5]%Z)
           (F64.IntArray F64.int64 [1; 1; 1; 1]%Z)
           [2; 3; 4; 5]%Z [1; 1; 1; 1]%Z 3%nat (F64.mkSample 3 5 1));
    vm_compute; reflexivity.
Defined.

Lemma f64_gillespie_lv_later_horizon_births :
  exists ts' xs' ys',
    [0; 1; 2; 3]%float = [0; 1; 2]%float ++ ts' /\
    [2; 3; 4; 5]%Z = [2; 3; 4]%Z ++ xs' /\
    [1; 1; 1; 1]%Z = [1; 1; 1]%Z ++ ys'.
Proof.
  apply (f64_gillespie_lv_later_horizon 2 1 1 0 0 0 2 3 F64.rng_one 10 10
           [0; 1; 2]%float [0; 1; 2; 3]%float
           (F64.IntArray F64.int64 [2; 3; 4]%Z)
           (F64.IntArray F64.int64 [1; 1; 1]%Z)
           (F64.IntArray F64.int64 [2; 3; 4; 5]%Z)
           (F64.IntArray F64.int64 [1; 1; 1; 1]%Z));
    first [lia | vm_compute; reflexivity].
Defined.
